(** * aws_s3: a shallow embedding of [S3Config] and [S3Connector]

    The development follows the Python sources [config.py] and
    [connector.py].  Python values are given the types the annotations of
    the sources declare ([str], [Optional[str]], [int], [list[str]]);
    [None] is [None] of an [option], also where [from_env] stores it in a
    field declared [str].  A character of a string stands for a code point
    below 256.

    The environment, the local file system and the boto3 client are
    external: the environment is a finite map, the file system and the
    client are an abstract world with transition functions, and every call
    to them is recorded in a trace.  A call of the client returns or
    raises a [ClientError] or another [Exception].  The worker pool of a
    parallel upload is given by the order in which it runs its tasks and
    the order in which they complete; a task runs to its end before the
    next one starts.  Logging is left out. *)

From Stdlib Require Import ZArith Ascii String List Lia Permutation.
From stdpp Require Import base option strings list gmap pretty.

(** ** Python [str] builtins used by the sources *)
Module PyStr.

(** Characters for which [str.isspace] holds, on code points below 256. *)
Definition isspace_char (c : ascii) : bool :=
  let n := nat_of_ascii c in
  (((9 <=? n) && (n <=? 13)) || ((28 <=? n) && (n <=? 32))
   || (n =? 133) || (n =? 160))%nat.

Fixpoint lstrip_with (drop : ascii -> bool) (s : string) : string :=
  match s with
  | EmptyString => EmptyString
  | String c s' => if drop c then lstrip_with drop s' else s
  end.

Definition rstrip_with (drop : ascii -> bool) (s : string) : string :=
  String.rev (lstrip_with drop (String.rev s)).

(** [c in chars] for a one-character [c]. *)
Fixpoint char_in (c : ascii) (chars : string) : bool :=
  match chars with
  | EmptyString => false
  | String d chars' => if Ascii.eqb c d then true else char_in c chars'
  end.

(** Whether [test] holds of every character of [s]. *)
Fixpoint all_chars (test : ascii -> bool) (s : string) : bool :=
  match s with
  | EmptyString => true
  | String c s' => test c && all_chars test s'
  end.

(** [s.isspace()]: [s] has a character and all its characters are white
    space. *)
Definition isspace (s : string) : bool :=
  negb (String.eqb s "") && all_chars isspace_char s.

(** [s.strip()] *)
Definition strip (s : string) : string :=
  rstrip_with isspace_char (lstrip_with isspace_char s).

(** [s.lstrip(chars)] and [s.rstrip(chars)] *)
Definition lstrip (chars s : string) : string := lstrip_with (fun c => char_in c chars) s.
Definition rstrip (chars s : string) : string := rstrip_with (fun c => char_in c chars) s.

(** [s.replace(old, new)] for one-character [old] and [new]. *)
Fixpoint replace_char (old new : ascii) (s : string) : string :=
  match s with
  | EmptyString => EmptyString
  | String c s' =>
      String (if Ascii.eqb c old then new else c) (replace_char old new s')
  end.

(** [sub in s] *)
Fixpoint contains (sub s : string) : bool :=
  if String.prefix sub s then true
  else match s with
       | EmptyString => false
       | String _ s' => contains sub s'
       end.

(** [str(n)] for an integer. *)
Definition str_of_Z (z : Z) : string := pretty z.
Definition str_of_nat (n : nat) : string := pretty n.

(** Truth value of a string, and of an optional string: [None] and [""]
    are false. *)
Definition truthy (s : string) : bool := negb (String.eqb s "").
Definition truthy_opt (o : option string) : bool :=
  match o with
  | None => false
  | Some s => truthy s
  end.

(** [f"{v}"] for a value that is a string or [None]. *)
Definition fmt_opt (o : option string) : string := default "None" o.

(** *** [int(s)] in base 10: surrounding white space, an optional sign,
    decimal digits with single underscores between digits. *)
Definition digit_val (c : ascii) : option Z :=
  let n := nat_of_ascii c in
  if ((48 <=? n) && (n <=? 57))%nat then Some (Z.of_nat (n - 48)) else None.

Fixpoint digits_go (acc : Z) (after_digit : bool) (s : string) : option Z :=
  match s with
  | EmptyString => if after_digit then Some acc else None
  | String c s' =>
      match digit_val c with
      | Some d => digits_go (10 * acc + d) true s'
      | None =>
          if Ascii.eqb c "_" && after_digit then digits_go acc false s'
          else None
      end
  end.

Definition int_of_str (s : string) : option Z :=
  match strip s with
  | String "+" ds => digits_go 0 false ds
  | String "-" ds => Z.opp <$> digits_go 0 false ds
  | ds => digits_go 0 false ds
  end.

End PyStr.

(** ** Exceptions raised by the sources ([exceptions.py] and builtins).
    Each carries the text [str(e)] gives. *)
Inductive exn : Type :=
| ValueError (msg : string)
| TypeError (msg : string)
| AttributeError (msg : string)
| ClientError (msg : string)
| OtherException (msg : string)
| AuthenticationError (msg : string)
| S3Error (msg : string)
| UploadError (msg : string).

Definition exn_str (e : exn) : string :=
  match e with
  | ValueError m | TypeError m | AttributeError m | ClientError m
  | OtherException m | AuthenticationError m | S3Error m | UploadError m => m
  end.

(** ** [exceptions.py]: the classes and their bases, with the builtin
    classes the sources raise or catch *)
Module Exceptions.

Inductive exn_class : Type :=
| C_Exception
| C_ValueError
| C_TypeError
| C_AttributeError
| C_ClientError
| C_AWSConnectorError
| C_CredentialError
| C_AuthenticationError
| C_S3Error
| C_UploadError.

#[global] Instance exn_class_eq_dec : EqDecision exn_class.
Proof. solve_decision. Defined.

(** The base a class is declared with; [Exception] is where the walk
    stops. *)
Definition base (c : exn_class) : option exn_class :=
  match c with
  | C_Exception => None
  | C_ValueError | C_TypeError | C_AttributeError | C_ClientError =>
      Some C_Exception
  | C_AWSConnectorError => Some C_Exception
  | C_CredentialError | C_AuthenticationError | C_S3Error =>
      Some C_AWSConnectorError
  | C_UploadError => Some C_S3Error
  end.

(** [issubclass(c, d)], by walking up from [c]; no class is more than
    three bases below [Exception]. *)
Fixpoint issubclass_within (steps : nat) (c d : exn_class) : bool :=
  if bool_decide (c = d) then true
  else match steps, base c with
       | S steps', Some b => issubclass_within steps' b d
       | _, _ => false
       end.

Definition issubclass (c d : exn_class) : bool := issubclass_within 3 c d.

(** The class of a raised exception; an exception of the client that is
    not a [ClientError] is taken at the class [Exception]. *)
Definition class_of (e : exn) : exn_class :=
  match e with
  | ValueError _ => C_ValueError
  | TypeError _ => C_TypeError
  | AttributeError _ => C_AttributeError
  | ClientError _ => C_ClientError
  | OtherException _ => C_Exception
  | AuthenticationError _ => C_AuthenticationError
  | S3Error _ => C_S3Error
  | UploadError _ => C_UploadError
  end.

(** [isinstance(e, c)]: whether [except c] catches [e]. *)
Definition isinstance (e : exn) (c : exn_class) : bool :=
  issubclass (class_of e) c.

End Exceptions.

(** ** [config.py] *)
Module Config.
Import PyStr.

Record S3Config : Type := mkS3Config {
  s3_bucket_name : option string;
  s3_directory : option string;
  aws_region : option string;
  aws_access_key_id : option string;
  aws_secret_access_key : option string;
  aws_session_token : option string;
  aws_profile : option string;
  max_retries : Z;
  timeout : Z
}.

(** [os.environ] is a finite map from names to strings. *)

(** [int(os.environ.get(name, dflt))] *)
Definition env_int (env : gmap string string) (name dflt : string) : exn + Z :=
  let s := default dflt (env !! name) in
  match int_of_str s with
  | Some z => inr z
  | None =>
      inl (ValueError ("invalid literal for int() with base 10: '"
                       +:+ s +:+ "'"))
  end.

Definition from_env (env : gmap string string) : exn + S3Config :=
  match env_int env "AWS_MAX_RETRIES" "3" with
  | inl e => inl e
  | inr retries =>
      match env_int env "AWS_TIMEOUT" "30" with
      | inl e => inl e
      | inr tmo =>
          inr {| s3_bucket_name := env !! "S3_BUCKET_NAME";
                 s3_directory := env !! "S3_DIRECTORY";
                 aws_region := env !! "AWS_REGION";
                 max_retries := retries;
                 timeout := tmo;
                 aws_access_key_id := env !! "AWS_ACCESS_KEY_ID";
                 aws_secret_access_key := env !! "AWS_SECRET_ACCESS_KEY";
                 aws_session_token := env !! "AWS_SESSION_TOKEN";
                 aws_profile := env !! "AWS_PROFILE" |}
      end
  end.

Definition validate (self : S3Config) : exn + unit :=
  if negb (truthy_opt (s3_bucket_name self)) then
    inl (ValueError "Bucket cannot be empty")
  else if negb (truthy_opt (s3_directory self)) then
    inl (ValueError "Directory cannot be empty")
  else if (max_retries self <? 0)%Z then
    inl (ValueError "Max retries cannot be negative")
  else if (timeout self <=? 0)%Z then
    inl (ValueError "Timeout must be a positive number")
  else
    match aws_region self with
    | Some r =>
        if truthy r && negb (truthy (strip r)) then
          inl (ValueError "Region cannot be empty if provided")
        else inr tt
    | None => inr tt
    end.

End Config.

(** ** [os.path]: the two flavours of CPython 3.11, [posixpath] and
    [ntpath], for the functions the connector calls *)
Module OsPath.
Import PyStr.

Definition bslash : ascii := Eval cbv in ascii_of_nat 92.

(** [p[:i]] and [p[i:]] *)
Definition take_str (i : nat) (p : string) : string := substring 0 i p.
Definition drop_str (i : nat) (p : string) : string :=
  substring i (String.length p - i) p.

Definition first_char (s : string) : option ascii :=
  match s with
  | EmptyString => None
  | String c _ => Some c
  end.

Definition last_char (s : string) : option ascii := first_char (String.rev s).

(** The part of [p] after its last separator, [p[i:]] for the index [i]
    that [rfind] and the loop of [split] compute; [acc] is the part read
    since the last separator. *)
Fixpoint after_last_sep (is_sep : ascii -> bool) (acc p : string) : string :=
  match p with
  | EmptyString => acc
  | String c p' =>
      if is_sep c then after_last_sep is_sep EmptyString p'
      else after_last_sep is_sep (acc +:+ String c EmptyString) p'
  end.

Module Posix.

Definition join (a b : string) : string :=
  if String.prefix "/" b then b
  else if negb (truthy a) || bool_decide (last_char a = Some "/"%char)
       then a +:+ b
       else a +:+ "/" +:+ b.

Definition basename (p : string) : string :=
  after_last_sep (fun c => Ascii.eqb c "/") EmptyString p.

End Posix.

Module Nt.

Definition sep : string := String bslash EmptyString.
Definition is_sep (c : ascii) : bool := Ascii.eqb c bslash || Ascii.eqb c "/".

Definition upper_char (c : ascii) : ascii :=
  let n := nat_of_ascii c in
  if ((97 <=? n) && (n <=? 122))%nat then ascii_of_nat (n - 32) else c.

Definition lower_char (c : ascii) : ascii :=
  let n := nat_of_ascii c in
  if (((65 <=? n) && (n <=? 90))
      || ((192 <=? n) && (n <=? 222) && negb (n =? 215)))%nat
  then ascii_of_nat (n + 32) else c.

Fixpoint map_str (f : ascii -> ascii) (s : string) : string :=
  match s with
  | EmptyString => EmptyString
  | String c s' => String (f c) (map_str f s')
  end.

Definition unc_prefix : string :=
  sep +:+ sep +:+ "?" +:+ sep +:+ "UNC" +:+ sep.

Definition splitdrive (p : string) : string * string :=
  if (2 <=? String.length p)%nat then
    let normp := replace_char "/" bslash p in
    if String.eqb (take_str 2 normp) (sep +:+ sep) then
      let start :=
        if String.eqb (map_str upper_char (take_str 8 normp)) unc_prefix
        then 8 else 2 in
      match index start sep normp with
      | None => (p, EmptyString)
      | Some i =>
          match index (i + 1) sep normp with
          | None => (p, EmptyString)
          | Some i2 => (take_str i2 p, drop_str i2 p)
          end
      end
    else if String.eqb (substring 1 1 normp) ":" then
      (take_str 2 p, drop_str 2 p)
    else (EmptyString, p)
  else (EmptyString, p).

Definition starts_with_sep (s : string) : bool :=
  match first_char s with
  | Some c => is_sep c
  | None => false
  end.

Definition ends_with_sep (s : string) : bool :=
  match last_char s with
  | Some c => is_sep c
  | None => false
  end.

(** The last step of [join]: glue the drive and the path. *)
Definition join_finish (result_drive result_path : string) : string :=
  if truthy result_path && negb (starts_with_sep result_path)
     && truthy result_drive
     && negb (bool_decide (last_char result_drive = Some ":"%char))
  then result_drive +:+ sep +:+ result_path
  else result_drive +:+ result_path.

Definition join (path p : string) : string :=
  let '(result_drive, result_path) := splitdrive path in
  let '(p_drive, p_path) := splitdrive p in
  if starts_with_sep p_path then
    (* the second path is absolute *)
    join_finish
      (if truthy p_drive || negb (truthy result_drive)
       then p_drive else result_drive)
      p_path
  else if truthy p_drive && negb (String.eqb p_drive result_drive)
          && negb (String.eqb (map_str lower_char p_drive)
                              (map_str lower_char result_drive)) then
    (* different drives: the first path is ignored *)
    join_finish p_drive p_path
  else
    let result_drive :=
      if truthy p_drive && negb (String.eqb p_drive result_drive)
      then p_drive else result_drive in
    let result_path :=
      if truthy result_path && negb (ends_with_sep result_path)
      then result_path +:+ sep else result_path in
    join_finish result_drive (result_path +:+ p_path).

Definition basename (p : string) : string :=
  after_last_sep is_sep EmptyString (snd (splitdrive p)).

End Nt.

(** The host's flavour of [os.path]. *)
Inductive flavour : Type := PosixPath | NtPath.

Definition join (h : flavour) : string -> string -> string :=
  match h with
  | PosixPath => Posix.join
  | NtPath => Nt.join
  end.

Definition basename (h : flavour) : string -> string :=
  match h with
  | PosixPath => Posix.basename
  | NtPath => Nt.basename
  end.

End OsPath.

(** ** [connector.py] *)
Module Connector.
Import PyStr Config.

(** What a call does: it returns a value or raises. *)
Inductive outcome (A : Type) : Type :=
| Returns (a : A)
| Raises (e : exn).
Arguments Returns {A} a.
Arguments Raises {A} e.

(** An argument of type [str | list[str]]. *)
Inductive str_or_list : Type :=
| One (s : string)
| Many (l : list string).

(** The response of [delete_objects]: the keys under ["Deleted"] and the
    per-key records under ["Errors"], each of which may be missing. *)
Record delete_error : Type := mkDeleteError {
  err_key : string;
  err_code : string;
  err_message : string
}.

Record delete_response : Type := mkDeleteResponse {
  Deleted : option (list string);
  Errors : option (list delete_error)
}.

(** The value under ["error"] of a result dict: [None], a string, the list
    of [{"file": f, "error": v}] dicts of a parallel upload, or the list
    the service reported. *)
Inductive error_value : Type :=
| ErrNone
| ErrStr (s : string)
| ErrFiles (l : list file_error)
| ErrService (l : list delete_error)
with file_error : Type :=
| FileError (file : string) (err : error_value).

(** The dict [{"success": _, "message": _, "error": _}]. *)
Record result : Type := mkResult {
  success : bool;
  message : string;
  error : error_value
}.

(** Calls that leave the process, in the order they are made. *)
Inductive event : Type :=
| EvIsFile (path : string)
| EvHeadBucket (bucket : option string)
| EvUploadFile (local_path : string) (bucket : option string) (key : string)
| EvPaginate (bucket : option string) (prefix : string)
| EvDeleteObjects (bucket : option string) (keys : list string).

(** The collaborators: the host's [os.path] flavour, [os.path.isfile] and
    the boto3 client.  A page of [list_objects_v2] is the list of keys
    under ["Contents"], or [None] when the page has no such entry. *)
Class World (W : Type) : Type := {
  host : OsPath.flavour;
  os_path_isfile : W -> string -> W * bool;
  s3_head_bucket : W -> option string -> W * outcome unit;
  s3_upload_file : W -> string -> option string -> string -> W * outcome unit;
  s3_paginate :
    W -> option string -> string -> W * outcome (list (option (list string)));
  s3_delete_objects :
    W -> option string -> list string -> W * outcome delete_response
}.

Record state (W : Type) : Type := mkState {
  world : W;
  trace : list event
}.
Arguments mkState {W} world trace.
Arguments world {W} s.
Arguments trace {W} s.

(** Computations that read and change the world and may raise. *)
Definition M (W A : Type) : Type := state W -> outcome A * state W.

#[global] Instance M_ret {W} : MRet (M W) :=
  fun A a st => (Returns a, st).

#[global] Instance M_bind {W} : MBind (M W) :=
  fun A B k m st =>
    match m st with
    | (Returns a, st') => k a st'
    | (Raises e, st') => (Raises e, st')
    end.

Definition raise {W A} (e : exn) : M W A := fun st => (Raises e, st).

(** [try: body except Exception as e: handler e] *)
Definition try_except {W A} (body : M W A) (handler : exn -> M W A) : M W A :=
  fun st =>
    match body st with
    | (Returns a, st') => (Returns a, st')
    | (Raises e, st') => handler e st'
    end.

(** A call that cannot raise, and a call that can. *)
Definition call {W A} (ev : event) (f : W -> W * A) : M W A :=
  fun st =>
    let '(w', a) := f (world st) in
    (Returns a, mkState w' (trace st ++ [ev])).

Definition call_client {W A} (ev : event) (f : W -> W * outcome A) : M W A :=
  fun st =>
    let '(w', r) := f (world st) in
    (r, mkState w' (trace st ++ [ev])).

(** The keyword arguments [__init__] reads: a field is [None] when the
    keyword is not passed. *)
Record KwArgs : Type := mkKwArgs {
  kw_s3_bucket_name : option (option string);
  kw_s3_directory : option (option string);
  kw_aws_region : option (option string);
  kw_aws_access_key_id : option (option string);
  kw_aws_secret_access_key : option (option string);
  kw_aws_session_token : option (option string);
  kw_aws_profile : option (option string);
  kw_max_retries : option Z;
  kw_timeout : option Z
}.

(** [v or ""] *)
Definition or_empty (v : option string) : string :=
  match v with
  | Some s => if truthy s then s else ""
  | None => ""
  end.

(** Lines 65-79 of [__init__]: the configuration before it is validated. *)
Definition resolve_config (config : option S3Config) (kwargs : KwArgs)
    (env : gmap string string) : exn + S3Config :=
  match config with
  | Some c => inr c
  | None =>
      match from_env env with
      | inl e => inl e
      | inr env_config =>
          inr {| s3_bucket_name :=
                   default (Some (or_empty (s3_bucket_name env_config)))
                           (kw_s3_bucket_name kwargs);
                 s3_directory :=
                   default (Some (or_empty (s3_directory env_config)))
                           (kw_s3_directory kwargs);
                 aws_region :=
                   default (aws_region env_config) (kw_aws_region kwargs);
                 aws_access_key_id :=
                   default (aws_access_key_id env_config)
                           (kw_aws_access_key_id kwargs);
                 aws_secret_access_key :=
                   default (aws_secret_access_key env_config)
                           (kw_aws_secret_access_key kwargs);
                 aws_session_token :=
                   default (aws_session_token env_config)
                           (kw_aws_session_token kwargs);
                 aws_profile :=
                   default (aws_profile env_config) (kw_aws_profile kwargs);
                 max_retries :=
                   default (max_retries env_config) (kw_max_retries kwargs);
                 timeout := default (timeout env_config) (kw_timeout kwargs) |}
      end
  end.

Record S3Connector : Type := mkS3Connector {
  config : S3Config
}.

(** The key an upload writes to: lines 168-169. *)
Definition s3_key (h : OsPath.flavour) (directory local_path : string) : string :=
  replace_char OsPath.bslash "/"
    (OsPath.join h directory (OsPath.basename h local_path)).

(** The order in which the worker pool runs the submitted tasks and the
    order in which [as_completed] yields their futures; both name the
    tasks by their position in the list of files. *)
Record schedule : Type := mkSchedule {
  run_order : list nat;
  completion_order : list nat
}.

Section Operations.
Context {W : Type} `{World W}.

Definition _validate_connection (self : S3Connector) : M W unit :=
  try_except
    (call_client (EvHeadBucket (s3_bucket_name (config self)))
       (fun w => s3_head_bucket w (s3_bucket_name (config self))))
    (fun e =>
       match e with
       | ClientError _ =>
           raise (AuthenticationError
             "S3 credentials are invalid or expired. Please refresh your SSO session.")
       | _ => raise e
       end).

(** [S3Connector(config, **kwargs)]; building the client makes no call. *)
Definition init (cfg : option S3Config) (kwargs : KwArgs)
    (env : gmap string string) : M W S3Connector :=
  match resolve_config cfg kwargs env with
  | inl e => raise e
  | inr c =>
      match validate c with
      | inl e => raise e
      | inr _ =>
          let self := mkS3Connector c in
          _ ← _validate_connection self;
          mret self
      end
  end.

(** [upload_files(local_path, False)] for a [local_path] that is not a
    list: lines 164-183. *)
Definition upload_files_path (self : S3Connector) (local_path : string)
    : M W result :=
  is_file ← call (EvIsFile local_path) (fun w => os_path_isfile w local_path);
  if negb is_file then
    raise (UploadError ("File not found: " +:+ local_path))
  else
    match s3_directory (config self) with
    | None =>
        raise (TypeError
          "expected str, bytes or os.PathLike object, not NoneType")
    | Some directory =>
        let bucket := s3_bucket_name (config self) in
        let s3_path := s3_key host directory local_path in
        try_except
          (_ ← call_client (EvUploadFile local_path bucket s3_path)
                 (fun w => s3_upload_file w local_path bucket s3_path);
           mret {| success := true;
                   message := "Uploaded to s3://" +:+ fmt_opt bucket
                              +:+ "/" +:+ s3_path;
                   error := ErrNone |})
          (fun e =>
             match e with
             | ClientError m =>
                 raise (UploadError ("Failed to upload " +:+ local_path
                                     +:+ " to S3: " +:+ m))
             | _ =>
                 raise (UploadError ("Unexpected error during upload: "
                                     +:+ exn_str e))
             end)
    end.

(** The loop of lines 160-161. *)
Fixpoint upload_each (self : S3Connector) (files : list string) : M W unit :=
  match files with
  | [] => mret tt
  | file :: rest =>
      _ ← upload_files_path self file;
      upload_each self rest
  end.

(** The worker pool: the submitted tasks run in the order [order], each
    to its end before the next one starts, and each leaves its outcome in
    its future; a task that raises does not stop the pool. *)
Fixpoint run_pool (self : S3Connector) (files : list string)
    (order : list nat) (futures : gmap nat (outcome result))
    : state W -> gmap nat (outcome result) * state W :=
  fun st =>
    match order with
    | [] => (futures, st)
    | i :: order' =>
        match files !! i with
        | Some file =>
            let '(r, st') := upload_files_path self file st in
            run_pool self files order' (<[i := r]> futures) st'
        | None => run_pool self files order' futures st
        end
    end.

(** The loop over [as_completed]: lines 144-154.  The accumulator holds
    [results], [errors] and [files]. *)
Fixpoint collect (files : list string) (futures : gmap nat (outcome result))
    (order : list nat)
    (acc : list result * list file_error * list string)
    : list result * list file_error * list string :=
  match order with
  | [] => acc
  | i :: order' =>
      match files !! i, futures !! i with
      | Some file, Some fut =>
          let '(results, errors, seen) := acc in
          match fut with
          | Returns r =>
              collect files futures order'
                (results ++ [r],
                 if negb (success r) then errors ++ [FileError file (error r)]
                 else errors,
                 seen ++ [file])
          | Raises exc =>
              collect files futures order'
                (results, errors ++ [FileError file (ErrStr (exn_str exc))],
                 seen ++ [file])
          end
      | _, _ => collect files futures order' acc
      end
  end.

Definition upload_files (sched : schedule) (self : S3Connector)
    (local_path : str_or_list) (parallel : bool) : M W result :=
  match local_path with
  | Many files =>
      if parallel then
        fun st =>
          let '(futures, st') := run_pool self files (run_order sched) ∅ st in
          let '(_, errors, _) :=
            collect files futures (completion_order sched) ([], [], []) in
          match errors with
          | _ :: _ =>
              (Returns {| success := false;
                          message := "Some files failed to upload.";
                          error := ErrFiles errors |}, st')
          | [] =>
              (Returns {| success := true;
                          message := "Uploaded " +:+ str_of_nat (length files)
                                     +:+ " files in parallel.";
                          error := ErrNone |}, st')
          end
      else
        _ ← upload_each self files;
        mret {| success := true;
                message := "Uploaded " +:+ str_of_nat (length files)
                           +:+ " files.";
                error := ErrNone |}
  | One path => upload_files_path self path
  end.

Definition list_files (self : S3Connector) (contains : option string)
    : M W (list string) :=
  match s3_directory (config self) with
  | None => raise (AttributeError "'NoneType' object has no attribute 'lstrip'")
  | Some directory =>
      let s3_prefix := lstrip "/" directory in
      let bucket := s3_bucket_name (config self) in
      try_except
        (pages ← call_client (EvPaginate bucket s3_prefix)
                   (fun w => s3_paginate w bucket s3_prefix);
         mret (concat
           (map (fun page =>
                   List.filter
                     (fun key =>
                        match contains with
                        | None => true
                        | Some sub => PyStr.contains sub key
                        end)
                     (default [] page))
                pages)))
        (fun e =>
           match e with
           | ClientError m =>
               raise (S3Error ("Failed to list files in S3: " +:+ m))
           | _ =>
               raise (S3Error ("Unexpected error during list_files: "
                               +:+ exn_str e))
           end)
  end.

Definition delete_files (self : S3Connector) (keys : str_or_list)
    : M W result :=
  let keys := match keys with One k => [k] | Many l => l end in
  match keys with
  | [] =>
      mret {| success := false;
              message := "No keys provided for deletion.";
              error := ErrNone |}
  | _ :: _ =>
      let bucket := s3_bucket_name (config self) in
      try_except
        (response ← call_client (EvDeleteObjects bucket keys)
                      (fun w => s3_delete_objects w bucket keys);
         let deleted := default [] (Deleted response) in
         let errors := default [] (Errors response) in
         match errors with
         | _ :: _ =>
             mret {| success := false;
                     message := "Some files could not be deleted.";
                     error := ErrService errors |}
         | [] =>
             mret {| success := true;
                     message := "Deleted " +:+ str_of_nat (length deleted)
                                +:+ " files.";
                     error := ErrNone |}
         end)
        (fun e =>
           match e with
           | ClientError m =>
               raise (S3Error ("Failed to delete files in S3: " +:+ m))
           | _ =>
               raise (S3Error ("Unexpected error during delete_files: "
                               +:+ exn_str e))
           end)
  end.

End Operations.

(** What [_create_s3_client] hands to boto3: the keyword arguments of
    [boto3.Session] and of [session.client]; [None] stands for a keyword
    that is not passed, and for [region_name] also for a [None] that is
    passed. *)
Record client_args : Type := mkClientArgs {
  session_profile_name : option string;
  service_name : string;
  region_name : option string;
  retries_max_attempts : Z;
  connect_timeout : Z;
  read_timeout : Z;
  client_aws_access_key_id : option string;
  client_aws_secret_access_key : option string;
  client_aws_session_token : option string
}.

Definition _create_s3_client (self : S3Connector) : client_args :=
  let c := config self in
  let with_keys :=
    truthy_opt (aws_access_key_id c) && truthy_opt (aws_secret_access_key c) in
  {| session_profile_name :=
       if truthy_opt (aws_profile c) then aws_profile c else None;
     service_name := "s3";
     region_name := aws_region c;
     retries_max_attempts := max_retries c;
     connect_timeout := timeout c;
     read_timeout := timeout c;
     client_aws_access_key_id :=
       if with_keys then aws_access_key_id c else None;
     client_aws_secret_access_key :=
       if with_keys then aws_secret_access_key c else None;
     client_aws_session_token :=
       if with_keys && truthy_opt (aws_session_token c)
       then aws_session_token c else None |}.

End Connector.

(** ** The wording of the specification, for the statements below *)
Module Spec.
Import Connector.

(** "Strip a single leading slash." *)
Definition strip_one_leading_slash (directory : string) : string :=
  match directory with
  | String "/" rest => rest
  | _ => directory
  end.

(** "[error] is empty/absent." *)
Definition error_absent (v : error_value) : bool :=
  match v with
  | ErrNone | ErrStr "" | ErrFiles [] | ErrService [] => true
  | _ => false
  end.

(** The calls in a trace that go to the storage client. *)
Definition is_client_call (ev : event) : bool :=
  match ev with
  | EvIsFile _ => false
  | _ => true
  end.

(** The local paths whose upload was started, in the order of the calls:
    every upload of a single path opens with [os.path.isfile]. *)
Definition attempted (evs : list event) : list string :=
  omap (fun ev => match ev with EvIsFile p => Some p | _ => None end) evs.

(** "Each item's raised exception or failed result is captured into an
    error list keyed by the original file": the entry an outcome leaves in
    that list, if any. *)
Definition item_error (file : string) (fut : outcome result) : option file_error :=
  match fut with
  | Raises exc => Some (FileError file (ErrStr (exn_str exc)))
  | Returns r =>
      if success r then None else Some (FileError file (error r))
  end.

(** The calls of [upload_file] in a trace, in their order: the local
    path, the bucket and the key of each. *)
Definition uploads (evs : list event) : list (string * option string * string) :=
  omap (fun ev => match ev with
                  | EvUploadFile p b k => Some (p, b, k)
                  | _ => None
                  end) evs.

(** The call of [upload_file] that the upload of [file] makes. *)
Definition upload_of (h : OsPath.flavour) (self : S3Connector) (file : string)
    : option (string * option string * string) :=
  directory ← Config.s3_directory (config self);
  Some (file, Config.s3_bucket_name (config self), s3_key h directory file).

End Spec.

(** ** A world for running the operations on concrete inputs: the files
    that exist, the paths and keys the client refuses with a
    [ClientError], and the canned answers of the listing and of the batch
    delete, as a mocked client gives them. *)
Module Sim.
Import Connector.

Record sim : Type := mkSim {
  sim_files : list string;
  sim_refused : list string;
  sim_pages : list (option (list string));
  sim_delete : delete_response
}.

Definition sim_world (h : OsPath.flavour) : World sim := {|
  host := h;
  os_path_isfile w p := (w, bool_decide (p ∈ sim_files w));
  s3_head_bucket w b := (w, Returns tt);
  s3_upload_file w p b k :=
    (w, if bool_decide (p ∈ sim_refused w)
        then Raises (ClientError "AccessDenied") else Returns tt);
  s3_paginate w b pre := (w, Returns (sim_pages w));
  s3_delete_objects w b ks := (w, Returns (sim_delete w))
|}.

(** The mocked world of a POSIX host. *)
Definition posix_host : World sim := sim_world OsPath.PosixPath.

Definition test_config : Config.S3Config := {|
  Config.s3_bucket_name := Some "test-bucket";
  Config.s3_directory := Some "test-dir/";
  Config.aws_region := Some "us-east-1";
  Config.aws_access_key_id := None;
  Config.aws_secret_access_key := None;
  Config.aws_session_token := None;
  Config.aws_profile := None;
  Config.max_retries := 1;
  Config.timeout := 1
|}.

Definition connector : S3Connector := mkS3Connector test_config.

(** A connector that differs from [connector] in its directory. *)
Definition connector_in (directory : string) : S3Connector :=
  mkS3Connector {|
    Config.s3_bucket_name := Some "test-bucket";
    Config.s3_directory := Some directory;
    Config.aws_region := Some "us-east-1";
    Config.aws_access_key_id := None;
    Config.aws_secret_access_key := None;
    Config.aws_session_token := None;
    Config.aws_profile := None;
    Config.max_retries := 1;
    Config.timeout := 1
  |}.

Definition start (w : sim) : state sim := mkState w [].

(** Two local files, of which the client refuses the second. *)
Definition two_files : sim := {|
  sim_files := ["a/f1.txt"; "a/f2.txt"];
  sim_refused := ["a/f2.txt"];
  sim_pages := [Some ["test-dir/f1.txt"; "test-dir/f2.txt"]];
  sim_delete := mkDeleteResponse (Some ["test-dir/f1.txt"]) (Some [])
|}.

(** The mocks of [tests/test_connector.py]. *)
Definition mocked : sim := {|
  sim_files := ["file.txt"; "file1.txt"; "file2.txt"];
  sim_refused := [];
  sim_pages := [Some ["test-dir/file1.txt"; "test-dir/file2.txt"]];
  sim_delete := mkDeleteResponse (Some ["test-dir/file1.txt"]) (Some [])
|}.

(** A service that reports a per-key error. *)
Definition failing_delete : sim := {|
  sim_files := [];
  sim_refused := [];
  sim_pages := [];
  sim_delete :=
    mkDeleteResponse (Some [])
      (Some [mkDeleteError "test-dir/f1.txt" "AccessDenied" "Access Denied"])
|}.



(** A world whose client raises [e] at every call. *)
Definition down_host (e : exn) : World sim := {|
  host := OsPath.PosixPath;
  os_path_isfile w p := (w, bool_decide (p ∈ sim_files w));
  s3_head_bucket w b := (w, Raises e);
  s3_upload_file w p b k := (w, Raises e);
  s3_paginate w b pre := (w, Raises e);
  s3_delete_objects w b ks := (w, Raises e)
|}.

(** A connector with a key pair, a session token and a profile. *)
Definition keyed_connector : S3Connector :=
  mkS3Connector {|
    Config.s3_bucket_name := Some "test-bucket";
    Config.s3_directory := Some "test-dir/";
    Config.aws_region := None;
    Config.aws_access_key_id := Some "AKIA";
    Config.aws_secret_access_key := Some "secret";
    Config.aws_session_token := Some "token";
    Config.aws_profile := Some "dev";
    Config.max_retries := 3;
    Config.timeout := 30
  |}.

(** No keyword argument. *)
Definition no_kwargs : KwArgs := {|
  kw_s3_bucket_name := None;
  kw_s3_directory := None;
  kw_aws_region := None;
  kw_aws_access_key_id := None;
  kw_aws_secret_access_key := None;
  kw_aws_session_token := None;
  kw_aws_profile := None;
  kw_max_retries := None;
  kw_timeout := None
|}.

(** Pages of a listing, one of them without ["Contents"]. *)
Definition paged : sim := {|
  sim_files := [];
  sim_refused := [];
  sim_pages := [Some ["test-dir/a.csv"; "test-dir/b.txt"]; None;
                Some ["test-dir/c.csv"]];
  sim_delete := mkDeleteResponse None None
|}.

End Sim.

(** * Properties *)

(** ** Strings *)
Section StringFacts.
Import PyStr.

Lemma truthy_true (s : string) : truthy s = true ↔ s ≠ "".
Proof.
  unfold truthy. destruct (String.eqb_spec s ""); simpl; split; congruence.
Qed.

Lemma truthy_false (s : string) : truthy s = false ↔ s = "".
Proof.
  unfold truthy. destruct (String.eqb_spec s ""); simpl; split; congruence.
Qed.

Lemma app_cons (c : ascii) (s t : string) :
  String c s +:+ t = String c (s +:+ t).
Proof. reflexivity. Qed.

Lemma app_nil (t : string) : "" +:+ t = t.
Proof. reflexivity. Qed.

Lemma rev_app_empty (s t : string) :
  String.rev_app s t = "" ↔ s = "" ∧ t = "".
Proof.
  revert t. induction s as [|c s IH]; intros t; simpl.
  - split; [intros ->; done | intros [_ ->]; done].
  - rewrite IH. split; intros [? ?]; discriminate.
Qed.

Lemma rev_empty (s : string) : String.rev s = "" ↔ s = "".
Proof. unfold String.rev. rewrite rev_app_empty. tauto. Qed.

Lemma all_chars_rev_app (test : ascii → bool) (s t : string) :
  all_chars test (String.rev_app s t) = all_chars test s && all_chars test t.
Proof.
  revert t. induction s as [|c s IH]; intros t; simpl; [done|].
  rewrite IH. simpl. destruct (test c), (all_chars test s); done.
Qed.

Lemma all_chars_rev (test : ascii → bool) (s : string) :
  all_chars test (String.rev s) = all_chars test s.
Proof. unfold String.rev. rewrite all_chars_rev_app. simpl. apply andb_true_r. Qed.

Lemma lstrip_with_empty (drop : ascii → bool) (s : string) :
  lstrip_with drop s = "" ↔ all_chars drop s = true.
Proof.
  induction s as [|c s IH]; simpl; [done|].
  destruct (drop c); simpl; [done|]. split; discriminate.
Qed.

Lemma lstrip_with_rest (drop : ascii → bool) (s : string) :
  all_chars drop (lstrip_with drop s) = all_chars drop s.
Proof.
  induction s as [|c s IH]; simpl; [done|].
  destruct (drop c) eqn:E; simpl; [done|]. by rewrite E.
Qed.

Lemma rstrip_with_empty (drop : ascii → bool) (s : string) :
  rstrip_with drop s = "" ↔ all_chars drop s = true.
Proof.
  unfold rstrip_with.
  by rewrite rev_empty, lstrip_with_empty, all_chars_rev.
Qed.

(** [s.strip()] is empty exactly when [s] holds nothing but white space. *)
Lemma strip_empty (s : string) :
  strip s = "" ↔ all_chars isspace_char s = true.
Proof.
  unfold strip. by rewrite rstrip_with_empty, lstrip_with_rest.
Qed.

(** What [lstrip] leaves does not begin with a stripped character. *)
Lemma lstrip_with_head (drop : ascii → bool) (s : string) (c : ascii) (t : string) :
  lstrip_with drop s = String c t → drop c = false.
Proof.
  induction s as [|d s IH]; simpl; [done|].
  destruct (drop d) eqn:E; [done|]. intros [= <- _]. done.
Qed.

(** What [lstrip] removes is a run of stripped characters. *)
Lemma lstrip_with_split (drop : ascii → bool) (s : string) :
  ∃ pre, s = pre +:+ lstrip_with drop s ∧ all_chars drop pre = true.
Proof.
  induction s as [|d s [pre [IH1 IH2]]]; simpl.
  - by exists "".
  - destruct (drop d) eqn:E.
    + exists (String d pre). rewrite app_cons, <- IH1. simpl.
      by rewrite E, IH2.
    + by exists "".
Qed.

Lemma replace_char_absent (old new : ascii) (s : string) :
  old ≠ new → all_chars (fun c => negb (Ascii.eqb c old)) (replace_char old new s) = true.
Proof.
  intros Hne. induction s as [|c s IH]; simpl; [done|].
  rewrite IH, andb_true_r.
  destruct (Ascii.eqb_spec c old) as [->|Hc].
  - destruct (Ascii.eqb_spec new old); [congruence|done].
  - destruct (Ascii.eqb_spec c old); [congruence|done].
Qed.

Lemma prefix_app (s t : string) : String.prefix s (s +:+ t) = true.
Proof.
  induction s as [|c s IH]; [by destruct t|].
  rewrite app_cons. simpl.
  destruct (ascii_dec c c); [done|congruence].
Qed.


Lemma contains_prefix (sub s : string) : String.prefix sub s = true -> contains sub s = true.
Proof. intros Hp. destruct s; unfold contains; fold contains; rewrite Hp. all: done. Qed.

Lemma contains_app (sub pre post : string) :
  contains sub (pre +:+ sub +:+ post) = true.
Proof.
  induction pre as [|c pre IH].
  - rewrite app_nil. apply contains_prefix, prefix_app.
  - rewrite app_cons. unfold contains; fold contains.
    destruct (String.prefix sub (String c (pre +:+ sub +:+ post))); [done|].
    exact IH.
Qed.
End StringFacts.

(** ** The configuration *)
Section ConfigFacts.
Import PyStr Config Connector.

Lemma truthy_opt_true (o : option string) :
  truthy_opt o = true ↔ ∃ s, o = Some s ∧ s ≠ "".
Proof.
  destruct o as [s|]; simpl.
  - rewrite truthy_true. split; [eauto|]. by intros (? & [= <-] & ?).
  - split; [done|]. by intros (? & ? & ?).
Qed.

(** The region test of [validate] refuses exactly the strings for which
    [str.isspace] holds. *)
Lemma region_test_isspace (r : string) :
  truthy r && negb (truthy (strip r)) = isspace r.
Proof.
  unfold isspace. fold (truthy r). f_equal.
  destruct (all_chars isspace_char r) eqn:E.
  - apply strip_empty in E. by rewrite E.
  - destruct (truthy (strip r)) eqn:T; [done|].
    apply truthy_false, strip_empty in T. congruence.
Qed.

(** What [validate] accepts has a directory that is a string. *)
Lemma validate_directory (c : S3Config) :
  validate c = inr tt → ∃ d, s3_directory c = Some d ∧ d ≠ "".
Proof.
  unfold validate.
  destruct (truthy_opt (s3_bucket_name c)); simpl; [|done].
  destruct (truthy_opt (s3_directory c)) eqn:Hd; simpl; [|done].
  intros _. by apply truthy_opt_true.
Qed.

(** An empty region passes: the test of [validate] guards [strip] with
    the truth value of the region. *)
Lemma validate_empty_region (c : S3Config) :
  aws_region c = Some "" →
  validate c = validate {| s3_bucket_name := s3_bucket_name c;
                           s3_directory := s3_directory c;
                           aws_region := None;
                           aws_access_key_id := aws_access_key_id c;
                           aws_secret_access_key := aws_secret_access_key c;
                           aws_session_token := aws_session_token c;
                           aws_profile := aws_profile c;
                           max_retries := max_retries c;
                           timeout := timeout c |}.
Proof. intros Hr. unfold validate. simpl. by rewrite Hr. Qed.

(** C4. [validate] returns without raising exactly when the bucket name
    and the directory are non-empty strings, [max_retries] is at least 0,
    [timeout] is above 0 and the region, when there is one, is not made
    of white space only, in the sense of [str.isspace]: it has a
    character and all its characters are white space.  In every other
    case [validate] raises [ValueError], the error of a configuration
    that fails validation. *)
Theorem validate_succeeds_iff (c : S3Config) :
  (validate c = inr tt ↔
     (∃ b, s3_bucket_name c = Some b ∧ b ≠ "")
     ∧ (∃ d, s3_directory c = Some d ∧ d ≠ "")
     ∧ (0 ≤ max_retries c)%Z
     ∧ (0 < timeout c)%Z
     ∧ (∀ r, aws_region c = Some r → isspace r = false))
  ∧ (validate c = inr tt ∨ ∃ msg, validate c = inl (ValueError msg)).
Proof.
  unfold validate.
  destruct (truthy_opt (s3_bucket_name c)) eqn:Hb; simpl.
  2:{ split; [|eauto]. split; [done|]. intros (Hb' & _).
      apply truthy_opt_true in Hb'. congruence. }
  destruct (truthy_opt (s3_directory c)) eqn:Hd; simpl.
  2:{ split; [|eauto]. split; [done|]. intros (_ & Hd' & _).
      apply truthy_opt_true in Hd'. congruence. }
  apply truthy_opt_true in Hb, Hd.
  destruct (Z.ltb_spec (max_retries c) 0).
  { split; [|eauto]. split; [done|]. intros (_ & _ & ? & _). lia. }
  destruct (Z.leb_spec (timeout c) 0).
  { split; [|eauto]. split; [done|]. intros (_ & _ & _ & ? & _). lia. }
  destruct (aws_region c) as [r|] eqn:Hr.
  - rewrite region_test_isspace. destruct (isspace r) eqn:Hs.
    + split; [|eauto]. split; [done|]. intros (_ & _ & _ & _ & Hreg).
      specialize (Hreg r eq_refl). congruence.
    + split; [|eauto]. split; [|done]. intros _.
      repeat split; try done; try lia. by intros ? [= <-].
  - split; [|eauto]. split; [|done]. intros _.
    repeat split; try done; lia.
Qed.



(** The environment is read before the keyword arguments are looked at:
    a value of [AWS_MAX_RETRIES] that [int] refuses makes the resolution
    raise, whatever is passed as [max_retries]. *)
Lemma resolve_config_unreadable_env (kwargs : KwArgs) (env : gmap string string)
    (s : string) :
  env !! "AWS_MAX_RETRIES" = Some s → int_of_str s = None →
  ∃ msg, resolve_config None kwargs env = inl (ValueError msg).
Proof.
  intros Hs Hn. unfold resolve_config, from_env, env_int.
  rewrite Hs. simpl. rewrite Hn. eauto.
Qed.

(** A configuration object is taken as it is. *)
Lemma resolve_config_explicit (c : S3Config) (kwargs : KwArgs)
    (env : gmap string string) :
  resolve_config (Some c) kwargs env = inr c.
Proof. reflexivity. Qed.

End ConfigFacts.


(** ** The storage key *)
Section KeyFacts.
Import PyStr OsPath Connector.

Lemma all_chars_app (test : ascii → bool) (s t : string) :
  all_chars test (s +:+ t) = all_chars test s && all_chars test t.
Proof.
  induction s as [|c s IH]; [done|].
  rewrite app_cons. simpl. rewrite IH. by destruct (test c).
Qed.

Lemma after_last_sep_no_sep (is_sep : ascii → bool) (acc p : string) :
  all_chars (fun c => negb (is_sep c)) acc = true →
  all_chars (fun c => negb (is_sep c)) (after_last_sep is_sep acc p) = true.
Proof.
  revert acc. induction p as [|c p IH]; intros acc Hacc; simpl; [done|].
  destruct (is_sep c) eqn:E.
  - by apply IH.
  - apply IH. rewrite all_chars_app, Hacc. simpl. by rewrite E.
Qed.

Lemma prefix_char_cons (a c : ascii) (t : string) :
  String.prefix (String a "") (String c t) = Ascii.eqb c a.
Proof.
  change (String.prefix (String a "") (String c t))
    with (if ascii_dec a c then String.prefix "" t else false).
  destruct (ascii_dec a c) as [->|Hne].
  - rewrite Ascii.eqb_refl. by destruct t.
  - destruct (Ascii.eqb_spec c a); congruence.
Qed.

(** A base name does not begin with a slash. *)
Lemma posix_basename_no_slash (p : string) :
  String.prefix "/" (Posix.basename p) = false.
Proof.
  pose proof (after_last_sep_no_sep (fun c => Ascii.eqb c "/") "" p eq_refl) as Hn.
  unfold Posix.basename. destruct (after_last_sep _ _ p) as [|c t]; [done|].
  simpl in Hn. apply andb_true_iff in Hn as [Hc _].
  rewrite prefix_char_cons. by destruct (Ascii.eqb c "/").
Qed.

(** C6. On a POSIX host and on a Windows host alike, the key for the
    local path [a/b/file.txt] under the directory [dir/] is
    [dir/file.txt].  On both hosts a key holds no backslash, and on a
    POSIX host it is the directory, a slash when the directory is not
    empty and does not end with one, and the base name of the local
    path, with every backslash turned into a slash. *)
Theorem s3_key_forward_slashes (h : flavour) :
  s3_key h "dir/" "a/b/file.txt" = "dir/file.txt"
  ∧ (∀ directory local_path,
       all_chars (fun c => negb (Ascii.eqb c bslash))
                 (s3_key h directory local_path) = true)
  ∧ (∀ directory local_path,
       s3_key PosixPath directory local_path =
       replace_char bslash "/"
         (directory
          +:+ (if negb (truthy directory)
                  || bool_decide (last_char directory = Some "/"%char)
               then "" else "/")
          +:+ Posix.basename local_path)).
Proof.
  split; [by destruct h|]. split.
  - intros directory local_path. unfold s3_key.
    by apply replace_char_absent.
  - intros directory local_path. unfold s3_key. simpl. unfold Posix.join.
    rewrite posix_basename_no_slash.
    by destruct (negb (truthy directory)
                 || bool_decide (last_char directory = Some "/"%char)).
Qed.

End KeyFacts.

(** ** The connector *)
Section ConnectorFacts.
Import PyStr Config Connector Spec.
Context {W : Type} `{World W}.

Ltac run :=
  unfold mbind, M_bind, mret, M_ret, call, call_client, raise, try_except;
  simpl.

(** *** Uploading one path *)

(** The events of one upload: the probe of the local path, then at most
    one call of the client. *)
Lemma upload_files_path_trace (self : S3Connector) (p : string) (st : state W) :
  ∃ evs, trace (upload_files_path self p st).2 = trace st ++ evs
         ∧ attempted evs = [p].
Proof.
  unfold upload_files_path. run.
  destruct (os_path_isfile (world st) p) as [w1 [|]]; simpl.
  - destruct (s3_directory (config self)) as [d|]; simpl.
    + destruct (s3_upload_file w1 p _ _) as [w2 [[]|e]]; simpl.
      * eexists [_; _]. by rewrite <- app_assoc.
      * eexists [_; _]. destruct e; simpl; by rewrite <- app_assoc.
    + by eexists [_].
  - by eexists [_].
Qed.

(** Whatever one upload raises when the directory is a string is an
    [UploadError]; whatever it returns reports a success. *)
Lemma upload_files_path_outcome (self : S3Connector) (p : string) (st : state W) :
  is_Some (s3_directory (config self)) →
  (∃ msg, (upload_files_path self p st).1 = Raises (UploadError msg))
  ∨ (∃ res, (upload_files_path self p st).1 = Returns res
            ∧ success res = true ∧ error res = ErrNone).
Proof.
  intros [d Hd]. unfold upload_files_path. run. rewrite Hd.
  destruct (os_path_isfile (world st) p) as [w1 [|]]; simpl; [|eauto].
  destruct (s3_upload_file w1 p _ _) as [w2 [[]|e]]; simpl; [eauto|].
  left. destruct e; simpl; eauto.
Qed.

(** A dict that one upload returns never has a false [success], with or
    without a directory: the branch of the parallel loop for such dicts is
    not taken for a list of paths. *)
Lemma upload_files_path_success (self : S3Connector) (p : string)
    (st st' : state W) (res : result) :
  upload_files_path self p st = (Returns res, st') →
  success res = true ∧ error res = ErrNone.
Proof.
  unfold upload_files_path. run.
  destruct (os_path_isfile (world st) p) as [w1 [|]]; simpl; [|done].
  destruct (s3_directory (config self)) as [d|]; simpl; [|done].
  destruct (s3_upload_file w1 p _ _) as [w2 [[]|e]]; simpl.
  - by intros [= <- _].
  - by destruct e.
Qed.

(** C9. Uploading a single path that is not a local file raises
    [UploadError]; the probe of the path is the only call made, so the
    storage client is not called. *)
Theorem upload_missing_file_raises (sched : schedule) (self : S3Connector)
    (p : string) (parallel : bool) (st : state W) :
  (os_path_isfile (world st) p).2 = false →
  ∃ st' evs,
    upload_files sched self (One p) parallel st
      = (Raises (UploadError ("File not found: " +:+ p)), st')
    ∧ trace st' = trace st ++ evs
    ∧ evs = [EvIsFile p]
    ∧ List.filter is_client_call evs = [].
Proof.
  intros Hmissing. simpl. unfold upload_files_path. run.
  destruct (os_path_isfile (world st) p) as [w1 b]. simpl in Hmissing.
  subst b. simpl. by eexists _, _.
Qed.

(** C10. For a connector whose directory is a string, as [validate]
    makes sure of for every connector that [__init__] returns, an upload
    of a single path either raises [UploadError] or returns a dict whose
    [success] is true and whose [error] is [None]: no dict with a false
    [success] comes back. *)
Theorem upload_single_never_reports_failure (sched : schedule)
    (self : S3Connector) (p : string) (parallel : bool) (st : state W) :
  is_Some (s3_directory (config self)) →
  (∃ msg, (upload_files sched self (One p) parallel st).1
          = Raises (UploadError msg))
  ∨ (∃ res, (upload_files sched self (One p) parallel st).1 = Returns res
            ∧ success res = true ∧ error res = ErrNone).
Proof. intros Hd. simpl. by apply upload_files_path_outcome. Qed.

(** A connector that [__init__] returns holds a configuration that
    [validate] accepts, so its bucket and its directory are strings. *)
Lemma init_validated (cfg : option S3Config) (kwargs : KwArgs)
    (env : gmap string string) (st st' : state W) (self : S3Connector) :
  init cfg kwargs env st = (Returns self, st') →
  validate (config self) = inr tt ∧ is_Some (s3_directory (config self)).
Proof.
  unfold init. destruct (resolve_config cfg kwargs env) as [e|c]; [done|].
  destruct (validate c) as [e|[]] eqn:Hv; [done|].
  unfold _validate_connection. run.
  destruct (s3_head_bucket _ _) as [w1 [[]|e]]; simpl.
  - intros [= <- _]. simpl. split; [done|].
    apply validate_directory in Hv as (d & -> & _). eauto.
  - by destruct e.
Qed.

(** *** Listing *)

Lemma all_chars_ext (f g : ascii → bool) (s : string) :
  (∀ c, f c = g c) → all_chars f s = all_chars g s.
Proof. intros Hfg. induction s as [|c s IH]; simpl; [done|]. by rewrite Hfg, IH. Qed.

Lemma char_in_single (c a : ascii) : char_in c (String a "") = Ascii.eqb c a.
Proof. unfold char_in. by destruct (Ascii.eqb c a). Qed.

(** C7, as the code has it. [list_files] makes one call, the paginated
    listing, and its prefix is the directory without any of its leading
    slashes: the prefix does not begin with a slash, and the directory is
    a run of slashes followed by the prefix. *)
Theorem list_files_prefix (self : S3Connector) (directory : string)
    (contains : option string) (st : state W) :
  s3_directory (config self) = Some directory →
  trace (list_files self contains st).2
    = trace st ++ [EvPaginate (s3_bucket_name (config self))
                              (lstrip "/" directory)]
  ∧ String.prefix "/" (lstrip "/" directory) = false
  ∧ ∃ slashes, directory = slashes +:+ lstrip "/" directory
               ∧ all_chars (fun c => Ascii.eqb c "/") slashes = true.
Proof.
  intros Hd. split; [|split].
  - unfold list_files. rewrite Hd. run.
    destruct (s3_paginate _ _ _) as [w1 [pages|e]]; simpl; [done|].
    by destruct e.
  - unfold lstrip. destruct (lstrip_with _ directory) as [|c t] eqn:E; [done|].
    apply lstrip_with_head in E. rewrite prefix_char_cons.
    rewrite char_in_single in E. exact E.
  - destruct (lstrip_with_split (fun c => char_in c "/") directory)
      as (pre & Hpre & Hall).
    exists pre. split; [exact Hpre|].
    etrans; [|exact Hall]. apply all_chars_ext. intros c.
    symmetry. apply char_in_single.
Qed.

(** *** Deleting *)

(** C8. [delete_files] on no keys returns the "no keys" dict and leaves
    the world and the trace as they were.  On one key or more it makes
    one call, the batch delete, whatever comes of it; when the call
    returns and the response lists per-key errors
    the dict has a false [success] and carries that list, and when it
    lists none the dict has a true [success], no error and a message
    that holds the number of keys the response lists as deleted; for
    [delete([k1])] and a response that lists as many deleted keys as
    were sent, the message holds ["1"]. *)
Theorem delete_files_results (self : S3Connector) (keys : str_or_list)
    (st : state W) :
  let ks := match keys with One k => [k] | Many l => l end in
  let bucket := s3_bucket_name (config self) in
  (ks = [] →
     delete_files self keys st
     = (Returns {| success := false;
                   message := "No keys provided for deletion.";
                   error := ErrNone |}, st))
  ∧ (ks ≠ [] → ∀ w' response,
       s3_delete_objects (world st) bucket ks = (w', Returns response) →
       let st' := mkState w' (trace st ++ [EvDeleteObjects bucket ks]) in
       let n := length (default [] (Deleted response)) in
       match default [] (Errors response) with
       | [] =>
           delete_files self keys st
           = (Returns {| success := true;
                         message := "Deleted " +:+ str_of_nat n +:+ " files.";
                         error := ErrNone |}, st')
           ∧ PyStr.contains (str_of_nat n)
               ("Deleted " +:+ str_of_nat n +:+ " files.") = true
           ∧ (∀ k1, ks = [k1] → n = length ks →
                PyStr.contains "1"
                  ("Deleted " +:+ str_of_nat n +:+ " files.") = true)
       | errors =>
           delete_files self keys st
           = (Returns {| success := false;
                         message := "Some files could not be deleted.";
                         error := ErrService errors |}, st')
       end)
  ∧ (ks ≠ [] →
       trace (delete_files self keys st).2
       = trace st ++ [EvDeleteObjects bucket ks]).
Proof.
  intros ks bucket. split; [|split].
  - intros Hks. unfold delete_files. fold ks. by rewrite Hks.
  - intros Hks w' response Hcall st' n.
    assert (Hrun : delete_files self keys st =
      (Returns match default [] (Errors response) with
               | [] => {| success := true;
                          message := "Deleted " +:+ str_of_nat n +:+ " files.";
                          error := ErrNone |}
               | e :: errors => {| success := false;
                          message := "Some files could not be deleted.";
                          error := ErrService (e :: errors) |}
               end, st')).
    { unfold delete_files. fold ks. destruct ks as [|k ks']; [done|].
      run. fold bucket. rewrite Hcall. simpl.
      by destruct (default [] (Errors response)). }
    destruct (default [] (Errors response)) as [|e errors]; [|exact Hrun].
    split; [exact Hrun|]. split.
    + apply contains_app.
    + intros k1 -> ->. reflexivity.
  - intros Hks. unfold delete_files. fold ks. destruct ks as [|k ks']; [done|].
    run. fold bucket.
    destruct (s3_delete_objects _ _ _) as [w1 [response|e]]; simpl.
    + by destruct (default [] (Errors response)).
    + by destruct e.
Qed.

(** *** Uploading a list, one file after the other *)

Lemma upload_each_run (self : S3Connector) (files : list string) (st : state W) :
  ∃ evs, trace (upload_each self files st).2 = trace st ++ evs
    ∧ (((upload_each self files st).1 = Returns tt ∧ attempted evs = files)
       ∨ ∃ before file rest e st1,
           files = before ++ file :: rest
           ∧ upload_each self before st = (Returns tt, st1)
           ∧ upload_files_path self file st1
             = (Raises e, (upload_each self files st).2)
           ∧ (upload_each self files st).1 = Raises e
           ∧ attempted evs = before ++ [file]).
Proof.
  revert st. induction files as [|file rest IH]; intros st.
  - exists []. rewrite app_nil_r. split; [done|by left].
  - destruct (upload_files_path_trace self file st) as (evs1 & Ht1 & Ha1).
    simpl. run.
    destruct (upload_files_path self file st) as [[res|e] st1] eqn:E;
      simpl in *.
    + destruct (IH st1) as (evs2 & Ht2 & Hcase).
      exists (evs1 ++ evs2). split.
      { by rewrite Ht2, Ht1, app_assoc. }
      unfold attempted in *. rewrite omap_app, Ha1.
      destruct Hcase as [[Hr Ha2]|(before & f & rest' & e & st2 & -> & Hd & Hf & Hr & Ha2)].
      * left. by rewrite Ha2.
      * right. exists (file :: before), f, rest', e, st2.
        repeat split; [| exact Hf | exact Hr | by rewrite Ha2].
        simpl. run. by rewrite E.
    + exists evs1. split; [done|]. right.
      exists [], file, rest, e, st. by rewrite E.
Qed.


(** *** Uploading a list through the worker pool *)



Lemma collect_errors (files : list string) (futures : gmap nat (outcome result))
    (order : list nat) (results : list result) (errors : list file_error)
    (seen : list string) :
  (collect files futures order (results, errors, seen)).1.2
  = errors ++ omap (fun i => file ← files !! i; fut ← futures !! i;
                             item_error file fut) order.
Proof.
  revert results errors seen.
  induction order as [|i order IH]; intros results errors seen; simpl.
  - by rewrite app_nil_r.
  - destruct (files !! i) as [file|]; simpl; [|apply IH].
    destruct (futures !! i) as [[r|exc]|]; simpl; [| |apply IH].
    + rewrite IH. destruct (success r); simpl; [done|].
      by rewrite <- app_assoc.
    + rewrite IH. by rewrite <- app_assoc.
Qed.

Lemma omap_lookup_seq {A} (pre l : list A) :
  omap (fun i => (pre ++ l) !! i) (seq (length pre) (length l)) = l.
Proof.
  revert pre. induction l as [|x l IH]; intros pre; [done|].
  simpl. rewrite list_lookup_middle by done. f_equal.
  specialize (IH (pre ++ [x])).
  rewrite length_app, Nat.add_1_r, <- app_assoc in IH. exact IH.
Qed.


(** *** The result dicts of the batch operations *)

(** C1, as the code has it. Every dict that [upload_files] returns for a
    list, in either mode, and every dict that [delete_files] returns for
    one key or more has a true [success] exactly when its [error] is
    empty or [None]; for no keys [delete_files] returns a dict with a
    false [success] and [None] as [error]. *)
Theorem batch_success_iff_no_error (sched : schedule) (self : S3Connector)
    (st : state W) :
  (∀ files parallel res st',
     upload_files sched self (Many files) parallel st = (Returns res, st') →
     (success res = true ↔ error_absent (error res) = true))
  ∧ (∀ keys res st',
       delete_files self keys st = (Returns res, st') →
       match keys with
       | Many [] => success res = false ∧ error res = ErrNone
       | _ => success res = true ↔ error_absent (error res) = true
       end).
Proof.
  split.
  - intros files [|] res st'; simpl.
    + destruct (run_pool _ _ _ _ _) as [futures st1].
      destruct (collect _ _ _ _) as [[results errors] seen].
      destruct errors; intros [= <- _]; simpl; split; done.
    + run. destruct (upload_each self files st) as [[[]|e] st1]; [|done].
      intros [= <- _]. done.
  - intros keys res st' Hrun.
    assert (Hne : ∀ k ks, delete_files self (Many (k :: ks)) st = (Returns res, st') →
              success res = true ↔ error_absent (error res) = true).
    { clear Hrun. intros k ks. unfold delete_files. run.
      destruct (s3_delete_objects _ _ _) as [w1 [response|e]]; simpl.
      - destruct (default [] (Errors response)); intros [= <- _]; simpl;
          split; done.
      - by destruct e. }
    destruct keys as [k|[|k ks]].
    + by apply (Hne k []).
    + unfold delete_files in Hrun. simpl in Hrun. by injection Hrun as <- _.
    + by apply (Hne k ks).
Qed.

End ConnectorFacts.

(** ** Runs on concrete inputs *)
Section Runs.
Import PyStr Config Connector Spec Sim.

#[local] Existing Instance posix_host.

(** [test_upload_files_single] *)
Example run_upload_single :
  upload_files (mkSchedule [] []) connector (One "file.txt") false (start mocked)
  = (Returns {| success := true;
                message := "Uploaded to s3://test-bucket/test-dir/file.txt";
                error := ErrNone |},
     mkState mocked
       [EvIsFile "file.txt";
        EvUploadFile "file.txt" (Some "test-bucket") "test-dir/file.txt"]).
Proof. reflexivity. Qed.

(** [test_upload_files_list] *)
Example run_upload_list :
  upload_files (mkSchedule [] []) connector (Many ["file1.txt"; "file2.txt"])
    false (start mocked)
  = (Returns {| success := true; message := "Uploaded 2 files.";
                error := ErrNone |},
     mkState mocked
       [EvIsFile "file1.txt";
        EvUploadFile "file1.txt" (Some "test-bucket") "test-dir/file1.txt";
        EvIsFile "file2.txt";
        EvUploadFile "file2.txt" (Some "test-bucket") "test-dir/file2.txt"]).
Proof. vm_compute. reflexivity. Qed.

(** [test_list_files] *)
Example run_list_files :
  list_files connector None (start mocked)
  = (Returns ["test-dir/file1.txt"; "test-dir/file2.txt"],
     mkState mocked [EvPaginate (Some "test-bucket") "test-dir/"]).
Proof. reflexivity. Qed.

(** [test_delete_files] *)
Example run_delete_files :
  delete_files connector (Many ["test-dir/file1.txt"]) (start mocked)
  = (Returns {| success := true; message := "Deleted 1 files.";
                error := ErrNone |},
     mkState mocked
       [EvDeleteObjects (Some "test-bucket") ["test-dir/file1.txt"]]).
Proof. vm_compute. reflexivity. Qed.

(** A sequential upload stops at the file the client refuses: the third
    file is not looked at. *)
Example run_upload_list_refused :
  upload_files (mkSchedule [] []) connector
    (Many ["a/f1.txt"; "a/f2.txt"; "a/f3.txt"]) false (start two_files)
  = (Raises (UploadError "Failed to upload a/f2.txt to S3: AccessDenied"),
     mkState two_files
       [EvIsFile "a/f1.txt";
        EvUploadFile "a/f1.txt" (Some "test-bucket") "test-dir/f1.txt";
        EvIsFile "a/f2.txt";
        EvUploadFile "a/f2.txt" (Some "test-bucket") "test-dir/f2.txt"]).
Proof. reflexivity. Qed.

(** A parallel upload in which the second file runs and completes
    first and is refused: the first file is uploaded all the same. *)
Example run_upload_parallel_refused :
  upload_files (mkSchedule [1; 0] [1; 0]) connector
    (Many ["a/f1.txt"; "a/f2.txt"]) true (start two_files)
  = (Returns {| success := false;
                message := "Some files failed to upload.";
                error := ErrFiles
                  [FileError "a/f2.txt"
                     (ErrStr "Failed to upload a/f2.txt to S3: AccessDenied")] |},
     mkState two_files
       [EvIsFile "a/f2.txt";
        EvUploadFile "a/f2.txt" (Some "test-bucket") "test-dir/f2.txt";
        EvIsFile "a/f1.txt";
        EvUploadFile "a/f1.txt" (Some "test-bucket") "test-dir/f1.txt"]).
Proof. vm_compute. reflexivity. Qed.

(** A service that reports a per-key error. *)
Example run_delete_refused :
  (delete_files connector (One "test-dir/f1.txt") (start failing_delete)).1
  = Returns {| success := false;
               message := "Some files could not be deleted.";
               error := ErrService
                 [mkDeleteError "test-dir/f1.txt" "AccessDenied"
                                "Access Denied"] |}.
Proof. reflexivity. Qed.

(** C1 as the specification states it fails for [delete_files([])]: the
    dict has a false [success] and its [error] is [None]. *)
Lemma delete_no_keys_breaks_iff :
  ∃ res st',
    delete_files connector (Many []) (start mocked) = (Returns res, st')
    ∧ success res = false
    ∧ error_absent (error res) = true
    ∧ ¬ (success res = true ↔ error_absent (error res) = true).
Proof.
  eexists _, _. split; [reflexivity|]. simpl.
  split; [done|]. split; [done|]. intros [_ Hback]. by specialize (Hback eq_refl).
Qed.

(** C7 as the specification states it fails for the directory [//a]:
    the listing asks for the prefix [a], not for [/a]. *)
Lemma list_files_strips_every_slash :
  trace (list_files (connector_in "//a") None (start mocked)).2
  = [EvPaginate (Some "test-bucket") "a"]
  ∧ strip_one_leading_slash "//a" = "/a"
  ∧ trace (list_files (connector_in "//a") None (start mocked)).2
    ≠ [EvPaginate (Some "test-bucket") (strip_one_leading_slash "//a")].
Proof. split; [reflexivity|]. split; [reflexivity|]. discriminate. Qed.

(** Instances of the theorems above in the mocked world. *)
Lemma list_files_prefix_witness :
  s3_directory (config (connector_in "//a/b/")) = Some "//a/b/"
  ∧ trace (list_files (connector_in "//a/b/") (Some "x") (start mocked)).2
    = [EvPaginate (Some "test-bucket") "a/b/"].
Proof.
  split; [reflexivity|].
  exact (proj1 (list_files_prefix (connector_in "//a/b/") "//a/b/" (Some "x")
                  (start mocked) eq_refl)).
Defined.

Lemma upload_missing_file_raises_witness :
  (os_path_isfile (world (start mocked)) "absent.txt").2 = false
  ∧ ∃ st' evs,
      upload_files (mkSchedule [] []) connector (One "absent.txt") false
        (start mocked)
      = (Raises (UploadError "File not found: absent.txt"), st')
      ∧ trace st' = [] ++ evs
      ∧ evs = [EvIsFile "absent.txt"]
      ∧ List.filter is_client_call evs = [].
Proof.
  split; [reflexivity|].
  apply (upload_missing_file_raises (mkSchedule [] []) connector "absent.txt"
           false (start mocked)).
  reflexivity.
Defined.

Lemma upload_single_never_reports_failure_witness :
  is_Some (s3_directory (config connector))
  ∧ ((∃ msg, (upload_files (mkSchedule [] []) connector (One "file.txt")
                false (start mocked)).1 = Raises (UploadError msg))
     ∨ (∃ res, (upload_files (mkSchedule [] []) connector (One "file.txt")
                  false (start mocked)).1 = Returns res
               ∧ success res = true ∧ error res = ErrNone)).
Proof.
  assert (Hd : is_Some (s3_directory (config connector)))
    by (exists "test-dir/"; reflexivity).
  split; [exact Hd|].
  exact (upload_single_never_reports_failure (mkSchedule [] []) connector
           "file.txt" false (start mocked) Hd).
Defined.


Lemma delete_files_results_witness :
  delete_files connector (Many ["test-dir/file1.txt"]) (start mocked)
  = (Returns {| success := true; message := "Deleted 1 files.";
                error := ErrNone |},
     mkState mocked
       [EvDeleteObjects (Some "test-bucket") ["test-dir/file1.txt"]])
  ∧ PyStr.contains "1" "Deleted 1 files." = true.
Proof.
  destruct (delete_files_results connector (Many ["test-dir/file1.txt"])
              (start mocked)) as (_ & Hcall & _).
  specialize (Hcall ltac:(discriminate) mocked (sim_delete mocked) eq_refl).
  destruct Hcall as (Hrun & _ & Hone).
  split; [exact Hrun|]. exact (Hone "test-dir/file1.txt" eq_refl eq_refl).
Defined.

Lemma batch_success_iff_no_error_witness :
  ∃ res,
    (upload_files (mkSchedule [1; 0] [1; 0]) connector
       (Many ["a/f1.txt"; "a/f2.txt"]) true (start two_files)).1 = Returns res
    ∧ success res = false
    ∧ (success res = true ↔ error_absent (error res) = true).
Proof.
  destruct (upload_files (mkSchedule [1; 0] [1; 0]) connector
              (Many ["a/f1.txt"; "a/f2.txt"]) true (start two_files))
    as [[res|e] st'] eqn:E; [|vm_compute in E; discriminate].
  exists res. split; [reflexivity|]. split.
  - vm_compute in E. by injection E as <- _.
  - exact (proj1 (batch_success_iff_no_error (mkSchedule [1; 0] [1; 0])
                    connector (start two_files))
             ["a/f1.txt"; "a/f2.txt"] true res st' E).
Defined.

End Runs.

(** * Further properties of the sources *)

(** ** Substrings *)
Section SubstringFacts.
Import PyStr.

Lemma prefix_split (a s : string) :
  String.prefix a s = true → ∃ post, s = a +:+ post.
Proof.
  revert s. induction a as [|c a IH]; intros s Hp.
  - by exists s.
  - destruct s as [|d s]; [done|].
    change (String.prefix (String c a) (String d s))
      with (if ascii_dec c d then String.prefix a s else false) in Hp.
    destruct (ascii_dec c d) as [->|]; [|done].
    destruct (IH s Hp) as [post ->]. by exists post.
Qed.

(** [sub in s] holds exactly when [s] is [pre + sub + post]. *)
Lemma contains_split (sub s : string) :
  contains sub s = true ↔ ∃ pre post, s = pre +:+ sub +:+ post.
Proof.
  split; [|intros (pre & post & ->); apply contains_app].
  induction s as [|c s IH]; unfold contains; fold contains.
  - destruct (String.prefix sub "") eqn:Hp; [|done].
    intros _. apply prefix_split in Hp as [post ->]. by exists "", post.
  - destruct (String.prefix sub (String c s)) eqn:Hp.
    + intros _. apply prefix_split in Hp as [post ->]. by exists "", post.
    + intros Hc. destruct (IH Hc) as (pre & post & ->).
      by exists (String c pre), post.
Qed.

Lemma app_empty_r (s : string) : s +:+ "" = s.
Proof. induction s as [|c s IH]; [done|]. by rewrite app_cons, IH. Qed.

Lemma str_app_assoc (a b c : string) : (a +:+ b) +:+ c = a +:+ b +:+ c.
Proof. induction a as [|x a IH]; [done|]. by rewrite !app_cons, IH. Qed.

(** [sub in pre + sub] *)
Lemma contains_suffix (sub pre : string) : contains sub (pre +:+ sub) = true.
Proof.
  pose proof (contains_app sub pre "") as Hc. by rewrite app_empty_r in Hc.
Qed.

Lemma filter_sublist {A} (f : A → bool) (l : list A) :
  List.filter f l `sublist_of` l.
Proof.
  induction l as [|x l IH]; simpl; [done|].
  destruct (f x); [by apply sublist_skip | by apply sublist_cons].
Qed.

End SubstringFacts.

(** ** Listing, deleting and uploading one path: results and errors *)
Section CallFacts.
Import PyStr Config Connector Spec.
Context {W : Type} `{World W}.

Ltac step_m :=
  unfold mbind, M_bind, mret, M_ret, call, call_client, raise, try_except;
  simpl.

(** X1. When the paginated listing returns its pages, [list_files]
    returns the keys of all pages, page after page and in the order of
    each page, without the keys that do not hold the filter as a
    substring; a page without ["Contents"] gives no key, and without a
    filter every key is returned. *)
Theorem list_files_filters_in_order (self : S3Connector) (directory : string)
    (filter : option string) (st : state W) (w' : W)
    (pages : list (option (list string))) :
  s3_directory (config self) = Some directory →
  s3_paginate (world st) (s3_bucket_name (config self)) (lstrip "/" directory)
  = (w', Returns pages) →
  let all := concat (map (default []) pages) in
  ∃ keys,
    (list_files self filter st).1 = Returns keys
    ∧ keys `sublist_of` all
    ∧ (∀ key, key ∈ keys ↔
              key ∈ all
              ∧ match filter with
                | None => True
                | Some sub => ∃ pre post, key = pre +:+ sub +:+ post
                end)
    ∧ (filter = None → keys = all).
Proof.
  intros Hd Hcall all.
  set (keep := fun key : string =>
                 match filter with
                 | None => true
                 | Some sub => PyStr.contains sub key
                 end).
  exists (List.filter keep all). split; [|split; [|split]].
  - unfold list_files. rewrite Hd. step_m. rewrite Hcall. simpl.
    f_equal. unfold all. rewrite <- concat_filter_map, map_map. done.
  - apply filter_sublist.
  - intros key. rewrite !list_elem_of_In, filter_In. unfold keep.
    destruct filter as [sub|]; [|tauto]. by rewrite contains_split.
  - intros ->. unfold keep. clear. induction all as [|x l IH]; simpl; [done|].
    by rewrite IH.
Qed.

(** X2. When the paginated listing raises, [list_files] raises [S3Error]
    after that one call; the message ends with the text of the exception
    that was raised, after ["Failed to list files in S3: "] for a
    [ClientError] and ["Unexpected error during list_files: "] for any
    other. *)
Theorem list_files_translates_errors (self : S3Connector) (directory : string)
    (filter : option string) (st : state W) (w' : W) (e0 : exn) :
  s3_directory (config self) = Some directory →
  s3_paginate (world st) (s3_bucket_name (config self)) (lstrip "/" directory)
  = (w', Raises e0) →
  ∃ msg,
    list_files self filter st
    = (Raises (S3Error msg),
       mkState w' (trace st ++ [EvPaginate (s3_bucket_name (config self))
                                           (lstrip "/" directory)]))
    ∧ msg = (match e0 with
             | ClientError _ => "Failed to list files in S3: "
             | _ => "Unexpected error during list_files: "
             end) +:+ exn_str e0
    ∧ PyStr.contains (exn_str e0) msg = true.
Proof.
  intros Hd Hcall. eexists. split; [|split; [reflexivity|apply contains_suffix]].
  unfold list_files. rewrite Hd. step_m. rewrite Hcall. simpl.
  by destruct e0.
Qed.

(** X3. When the batch delete raises, [delete_files] raises [S3Error]
    after that one call; the message ends with the text of the exception
    that was raised, after ["Failed to delete files in S3: "] for a
    [ClientError] and ["Unexpected error during delete_files: "] for any
    other.  A single key is sent as a batch of one. *)
Theorem delete_files_translates_errors (self : S3Connector)
    (keys : str_or_list) (st : state W) (w' : W) (e0 : exn) :
  let ks := match keys with One k => [k] | Many l => l end in
  ks ≠ [] →
  s3_delete_objects (world st) (s3_bucket_name (config self)) ks
  = (w', Raises e0) →
  ∃ msg,
    delete_files self keys st
    = (Raises (S3Error msg),
       mkState w' (trace st ++ [EvDeleteObjects (s3_bucket_name (config self))
                                                ks]))
    ∧ msg = (match e0 with
             | ClientError _ => "Failed to delete files in S3: "
             | _ => "Unexpected error during delete_files: "
             end) +:+ exn_str e0
    ∧ PyStr.contains (exn_str e0) msg = true.
Proof.
  intros ks Hks Hcall. eexists.
  split; [|split; [reflexivity|apply contains_suffix]].
  unfold delete_files. fold ks. destruct ks as [|k ks']; [done|].
  step_m. rewrite Hcall. simpl. by destruct e0.
Qed.

(** X4. The upload of a local path that is a file, by a connector whose
    directory is a string, makes one call of the client after the probe:
    [upload_file] with the local path, the bucket and the key [s3_key]
    gives.  When the call returns, the dict reports the success and names
    the bucket and the key; when it raises, [UploadError] is raised with a
    message that ends with the text of the exception, after
    ["Failed to upload <path> to S3: "] for a [ClientError]. *)
Theorem upload_path_calls_client_once (sched : schedule) (self : S3Connector)
    (p : string) (parallel : bool) (directory : string) (st : state W)
    (w1 w2 : W) (r : outcome unit) :
  s3_directory (config self) = Some directory →
  os_path_isfile (world st) p = (w1, true) →
  s3_upload_file w1 p (s3_bucket_name (config self)) (s3_key host directory p)
  = (w2, r) →
  let bucket := s3_bucket_name (config self) in
  let key := s3_key host directory p in
  (upload_files sched self (One p) parallel st).2
  = mkState w2 (trace st ++ [EvIsFile p; EvUploadFile p bucket key])
  ∧ match r with
    | Returns _ =>
        (upload_files sched self (One p) parallel st).1
        = Returns {| success := true;
                     message := "Uploaded to s3://" +:+ fmt_opt bucket
                                +:+ "/" +:+ key;
                     error := ErrNone |}
    | Raises e0 =>
        ∃ msg,
          (upload_files sched self (One p) parallel st).1
          = Raises (UploadError msg)
          ∧ msg = (match e0 with
                   | ClientError _ => "Failed to upload " +:+ p +:+ " to S3: "
                   | _ => "Unexpected error during upload: "
                   end) +:+ exn_str e0
          ∧ PyStr.contains (exn_str e0) msg = true
    end.
Proof.
  intros Hd Hfile Hcall bucket key. simpl. unfold upload_files_path. step_m.
  rewrite Hfile. simpl. rewrite Hd. subst bucket key. simpl.
  rewrite Hcall. simpl.
  destruct r as [[]|e0]; simpl.
  - by rewrite <- app_assoc.
  - split; [destruct e0; simpl; by rewrite <- app_assoc|].
    eexists. split; [|split; [reflexivity|apply contains_suffix]].
    destruct e0; simpl; try reflexivity.
    by rewrite !str_app_assoc.
Qed.

End CallFacts.

(** ** Uploading a list: what reaches the client *)
Section UploadListFacts.
Import PyStr Config Connector Spec.
Context {W : Type} `{World W}.

Ltac step_l :=
  unfold mbind, M_bind, mret, M_ret, call, call_client, raise, try_except;
  simpl.

Lemma omap_cons_some {A B} (f : A → option B) (x : A) (l : list A) (y : B) :
  f x = Some y → omap f (x :: l) = y :: omap f l.
Proof. intros Hx. simpl. by rewrite Hx. Qed.

Lemma omap_cons_none {A B} (f : A → option B) (x : A) (l : list A) :
  f x = None → omap f (x :: l) = omap f l.
Proof. intros Hx. simpl. by rewrite Hx. Qed.

Lemma upload_of_some (self : S3Connector) (file directory : string) :
  s3_directory (config self) = Some directory →
  upload_of host self file
  = Some (file, s3_bucket_name (config self), s3_key host directory file).
Proof. intros Hd. unfold upload_of. by rewrite Hd. Qed.

(** An upload that leaves no entry in an error list made its call of
    [upload_file]. *)
Lemma upload_files_path_clean (self : S3Connector) (p : string)
    (st st1 : state W) (r : outcome result) :
  upload_files_path self p st = (r, st1) →
  item_error p r = None →
  ∃ directory,
    s3_directory (config self) = Some directory
    ∧ trace st1
      = trace st ++ [EvIsFile p;
                     EvUploadFile p (s3_bucket_name (config self))
                                  (s3_key host directory p)].
Proof.
  unfold upload_files_path. step_l.
  destruct (os_path_isfile (world st) p) as [w1 [|]]; simpl;
    [|by intros [= <- _]].
  destruct (s3_directory (config self)) as [d|]; simpl; [|by intros [= <- _]].
  destruct (s3_upload_file w1 p _ _) as [w2 [[]|e]]; simpl.
  - intros [= <- <-] _. exists d. by rewrite <- app_assoc.
  - destruct e; by intros [= <- _].
Qed.

Lemma upload_each_uploads (self : S3Connector) (files : list string)
    (st st' : state W) :
  upload_each self files st = (Returns tt, st') →
  ∃ evs, trace st' = trace st ++ evs
    ∧ uploads evs = omap (upload_of host self) files
    ∧ length (uploads evs) = length files
    ∧ attempted evs = files.
Proof.
  revert st. induction files as [|file rest IH]; intros st.
  - intros [= <-]. exists []. by rewrite app_nil_r.
  - intros Hrun.
    assert (Hrun' : match upload_files_path self file st with
                    | (Returns _, st1) => upload_each self rest st1
                    | (Raises e, st1) => (Raises e, st1)
                    end = (Returns tt, st')) by exact Hrun.
    clear Hrun.
    destruct (upload_files_path self file st) as [[res|e] st1] eqn:E; [|done].
    destruct (IH st1 Hrun') as (evs & Ht & Hu & Hl & Ha).
    destruct (upload_files_path_success self file st st1 res E) as [Hs _].
    destruct (upload_files_path_clean self file st st1 (Returns res) E)
      as (d & Hd & Ht1); [simpl; by rewrite Hs|].
    eexists (_ :: _ :: evs). split; [|split; [|split]].
    + rewrite Ht, Ht1, <- app_assoc. reflexivity.
    + rewrite (omap_cons_some _ _ _ _ (upload_of_some self file d Hd)).
      by rewrite <- Hu.
    + simpl. by rewrite Hl.
    + simpl. by rewrite <- Ha.
Qed.

(** X5. When [upload_files] returns for a list with [parallel=False],
    every file of the list was probed and then handed to the client, once
    and in the order of the list, each under the key [s3_key] gives for
    it. *)
Theorem sequential_success_uploads_each (sched : schedule) (self : S3Connector)
    (files : list string) (st st' : state W) (res : result) :
  upload_files sched self (Many files) false st = (Returns res, st') →
  ∃ evs, trace st' = trace st ++ evs
    ∧ uploads evs = omap (upload_of host self) files
    ∧ length (uploads evs) = length files
    ∧ attempted evs = files.
Proof.
  simpl. step_l.
  destruct (upload_each self files st) as [[[]|e] st1] eqn:E; [|done].
  intros [= _ <-]. by apply upload_each_uploads.
Qed.

(** No task writes to the future of another. *)
Lemma run_pool_other (self : S3Connector) (files : list string)
    (order : list nat) (futures : gmap nat (outcome result)) (st : state W)
    (i : nat) :
  i ∉ order → (run_pool self files order futures st).1 !! i = futures !! i.
Proof.
  revert futures st. induction order as [|k order IH]; intros futures st Hi;
    simpl; [done|].
  apply not_elem_of_cons in Hi as [Hne Hi].
  destruct (files !! k) as [file|]; [|by apply IH].
  destruct (upload_files_path self file st) as [r st1].
  rewrite IH by done. by rewrite lookup_insert_ne.
Qed.

Lemma run_pool_uploads (self : S3Connector) (files : list string)
    (order : list nat) (futures : gmap nat (outcome result)) (st : state W) :
  NoDup order →
  (∀ i file fut, i ∈ order → files !! i = Some file →
     (run_pool self files order futures st).1 !! i = Some fut →
     item_error file fut = None) →
  ∃ evs, trace (run_pool self files order futures st).2 = trace st ++ evs
    ∧ uploads evs
      = omap (fun i => files !! i ≫= upload_of host self) order
    ∧ length (uploads evs) = length (omap (fun i => files !! i) order).
Proof.
  revert futures st. induction order as [|i order IH]; intros futures st Hnd Hok.
  - exists []. by rewrite app_nil_r.
  - apply NoDup_cons in Hnd as [Hi Hnd].
    change (run_pool self files (i :: order) futures st)
      with (match files !! i with
            | Some file =>
                let '(r, st') := upload_files_path self file st in
                run_pool self files order (<[i:=r]> futures) st'
            | None => run_pool self files order futures st
            end) in *.
    destruct (files !! i) as [file|] eqn:Hfile.
    + destruct (upload_files_path self file st) as [r st1] eqn:E.
      assert (Hr : item_error file r = None).
      { apply (Hok i file r); [apply elem_of_cons; by left|done|].
        rewrite run_pool_other by done. apply lookup_insert_eq. }
      destruct (upload_files_path_clean self file st st1 r E Hr)
        as (d & Hd & Ht1).
      destruct (IH (<[i:=r]> futures) st1 Hnd) as (evs & Ht & Hu & Hl).
      { intros j f fut Hj. apply Hok. apply elem_of_cons. by right. }
      eexists (_ :: _ :: evs). split; [|split].
      * rewrite Ht, Ht1, <- app_assoc. reflexivity.
      * rewrite (omap_cons_some _ i _
                   (file, s3_bucket_name (config self), s3_key host d file)).
        -- by rewrite <- Hu.
        -- rewrite Hfile. simpl. by apply upload_of_some.
      * rewrite (omap_cons_some _ i _ file) by done. simpl. by rewrite Hl.
    + destruct (IH futures st Hnd) as (evs & Ht & Hu & Hl).
      { intros j f fut Hj. apply Hok. apply elem_of_cons. by right. }
      exists evs. split; [done|].
      rewrite !omap_cons_none; [done|done|by rewrite Hfile].
Qed.

Lemma omap_nil_all {A B} (f : A → option B) (l : list A) :
  omap f l = [] ↔ ∀ x, x ∈ l → f x = None.
Proof.
  induction l as [|a l IH]; simpl.
  - split; [|done]. intros _ x Hx. by apply elem_of_nil in Hx.
  - destruct (f a) eqn:E.
    + split; [done|]. intros Hall.
      specialize (Hall a (list_elem_of_here a l)). congruence.
    + rewrite IH. split.
      * intros Hall x Hx. apply elem_of_cons in Hx as [->|Hx]; auto.
      * intros Hall x Hx. apply Hall. apply elem_of_cons. by right.
Qed.

Lemma omap_bind_lookup_seq {A B} (g : A → option B) (pre l : list A) :
  omap (fun i => (pre ++ l) !! i ≫= g) (seq (length pre) (length l))
  = omap g l.
Proof.
  revert pre. induction l as [|x l IH]; intros pre; [done|].
  change (seq (length pre) (length (x :: l)))
    with (length pre :: seq (S (length pre)) (length l)).
  specialize (IH (pre ++ [x])).
  rewrite length_app, Nat.add_1_r, <- app_assoc in IH.
  change ([x] ++ l) with (x :: l) in IH.
  assert (Hx : (pre ++ x :: l) !! length pre ≫= g = g x)
    by (by rewrite list_lookup_middle).
  destruct (g x) as [y|] eqn:Hg.
  - rewrite (omap_cons_some (fun i => (pre ++ x :: l) !! i ≫= g)
               (length pre) _ y Hx), (omap_cons_some g x l y Hg).
    by rewrite IH.
  - rewrite (omap_cons_none (fun i => (pre ++ x :: l) !! i ≫= g)
               (length pre) _ Hx), (omap_cons_none g x l Hg).
    by rewrite IH.
Qed.

(** The error list of a parallel upload, as [upload_files] computes it. *)
Lemma upload_parallel_unfold (sched : schedule) (self : S3Connector)
    (files : list string) (st : state W) :
  let futures := (run_pool self files (run_order sched) ∅ st).1 in
  let errors :=
    omap (fun i => file ← files !! i; fut ← futures !! i;
                   item_error file fut) (completion_order sched) in
  upload_files sched self (Many files) true st
  = (Returns match errors with
             | [] => {| success := true;
                        message := "Uploaded " +:+ str_of_nat (length files)
                                   +:+ " files in parallel.";
                        error := ErrNone |}
             | _ :: _ => {| success := false;
                            message := "Some files failed to upload.";
                            error := ErrFiles errors |}
             end,
     (run_pool self files (run_order sched) ∅ st).2).
Proof.
  intros futures errors. unfold upload_files.
  pose proof (collect_errors files futures (completion_order sched) [] [] [])
    as Hc.
  subst errors futures.
  destruct (run_pool self files (run_order sched) ∅ st) as [futures st'].
  simpl in *.
  destruct (collect files futures (completion_order sched) ([], [], []))
    as [[results errs] seen].
  simpl in Hc. rewrite <- Hc. by destruct errs.
Qed.

(** X6. When [upload_files] returns a dict with a true [success] for a
    list with [parallel=True], every file of the list was handed to the
    client once, under the key [s3_key] gives for it, in the order in
    which the pool ran the uploads. *)
Theorem parallel_success_uploads_each (sched : schedule) (self : S3Connector)
    (files : list string) (st st' : state W) (res : result) :
  run_order sched ≡ₚ seq 0 (length files) →
  completion_order sched ≡ₚ seq 0 (length files) →
  upload_files sched self (Many files) true st = (Returns res, st') →
  success res = true →
  ∃ evs, trace st' = trace st ++ evs
    ∧ uploads evs ≡ₚ omap (upload_of host self) files
    ∧ length (uploads evs) = length files.
Proof.
  intros Hrun Hdone Hcall Hsucc.
  rewrite upload_parallel_unfold in Hcall. injection Hcall as Hres Hst.
  set (futures := (run_pool self files (run_order sched) ∅ st).1) in *.
  destruct (omap _ (completion_order sched)) as [|err errs] eqn:Herrs;
    [|subst res; done].
  assert (Hclean : ∀ i file fut, files !! i = Some file →
            futures !! i = Some fut → item_error file fut = None).
  { intros i file fut Hi Hfut.
    assert (Hin : i ∈ completion_order sched).
    { rewrite Hdone. apply elem_of_seq. apply lookup_lt_Some in Hi. lia. }
    pose proof (proj1 (omap_nil_all _ _) Herrs i Hin) as Hnone.
    cbv beta in Hnone. rewrite Hi in Hnone. simpl in Hnone.
    rewrite Hfut in Hnone. exact Hnone. }
  destruct (run_pool_uploads self files (run_order sched) ∅ st)
    as (evs & Ht & Hu & Hl).
  { rewrite Hrun. apply NoDup_seq. }
  { intros i file fut _. apply Hclean. }
  exists evs. rewrite <- Hst. split; [done|]. split.
  - rewrite Hu, Hrun. by rewrite (omap_bind_lookup_seq _ [] files).
  - pose proof (omap_lookup_seq [] files) as Hs. simpl in Hs.
    by rewrite Hl, Hrun, Hs.
Qed.

(** Run in the order of the list, the pool does what the loop of a
    sequential upload does, as long as no upload raises. *)
Lemma run_pool_in_order (self : S3Connector) (files : list string)
    (st st' : state W) :
  upload_each self files st = (Returns tt, st') →
  ∀ (pre : list string) (futures : gmap nat (outcome result)),
    (∀ i fut, futures !! i = Some fut →
              ∃ r, fut = Returns r ∧ success r = true) →
    (run_pool self (pre ++ files) (seq (length pre) (length files))
       futures st).2 = st'
    ∧ ∀ i fut,
        (run_pool self (pre ++ files) (seq (length pre) (length files))
           futures st).1 !! i = Some fut →
        ∃ r, fut = Returns r ∧ success r = true.
Proof.
  revert st. induction files as [|file rest IH]; intros st Hrun pre futures Hok.
  - injection Hrun as <-. by rewrite app_nil_r.
  - assert (Hrun' : match upload_files_path self file st with
                    | (Returns _, st1) => upload_each self rest st1
                    | (Raises e, st1) => (Raises e, st1)
                    end = (Returns tt, st')) by exact Hrun.
    clear Hrun.
    change (seq (length pre) (length (file :: rest)))
      with (length pre :: seq (S (length pre)) (length rest)).
    change (run_pool self (pre ++ file :: rest)
              (length pre :: seq (S (length pre)) (length rest)) futures st)
      with (match (pre ++ file :: rest) !! length pre with
            | Some f =>
                let '(r, st1) := upload_files_path self f st in
                run_pool self (pre ++ file :: rest)
                  (seq (S (length pre)) (length rest)) (<[length pre:=r]> futures)
                  st1
            | None =>
                run_pool self (pre ++ file :: rest)
                  (seq (S (length pre)) (length rest)) futures st
            end).
    rewrite list_lookup_middle by done.
    destruct (upload_files_path self file st) as [[res|e] st1] eqn:E; [|done].
    destruct (upload_files_path_success self file st st1 res E) as [Hs _].
    specialize (IH st1 Hrun' (pre ++ [file]) (<[length pre:=Returns res]> futures)).
    rewrite length_app, Nat.add_1_r, <- app_assoc in IH.
    apply IH. intros i fut Hi.
    destruct (decide (length pre = i)) as [<-|Hne].
    + rewrite lookup_insert_eq in Hi. injection Hi as <-. eauto.
    + rewrite lookup_insert_ne in Hi by done. eauto.
Qed.

(** X7. The two modes agree when nothing fails: if the sequential upload
    of a list returns, the parallel upload of the same list from the same
    state, with the pool running the uploads in the order of the list,
    makes the same calls, ends in the same state and returns the success
    dict of the parallel mode, in whatever order the uploads complete. *)
Theorem modes_agree_on_success (sched : schedule) (self : S3Connector)
    (files : list string) (st st' : state W) (res : result) :
  run_order sched = seq 0 (length files) →
  upload_files sched self (Many files) false st = (Returns res, st') →
  upload_files sched self (Many files) true st
  = (Returns {| success := true;
                message := "Uploaded " +:+ str_of_nat (length files)
                           +:+ " files in parallel.";
                error := ErrNone |}, st').
Proof.
  intros Hrun Hseq.
  assert (Heach : upload_each self files st = (Returns tt, st')).
  { revert Hseq. simpl. step_l.
    destruct (upload_each self files st) as [[[]|e] st1]; [|done].
    by intros [= _ <-]. }
  destruct (run_pool_in_order self files st st' Heach [] ∅) as [Hst Hfut].
  { intros i fut Hi. by rewrite lookup_empty in Hi. }
  simpl in Hst, Hfut.
  rewrite upload_parallel_unfold, Hrun, Hst.
  set (errors := omap _ (completion_order sched)).
  assert (Hnil : errors = []).
  { apply omap_nil_all. intros i _.
    destruct (files !! i) as [file|]; simpl; [|done].
    destruct (_ !! i) as [fut|] eqn:Hi; simpl; [|done].
    destruct (Hfut i fut Hi) as (r & -> & Hs). simpl. by rewrite Hs. }
  by rewrite Hnil.
Qed.

(** X8. The order in which the uploads complete changes neither the calls
    a parallel upload makes nor its verdict: two runs in which the pool
    runs the uploads in the same order end in the same state, with the
    same [success] and the same message, and their error lists hold the
    same entries, in the order of completion of each. *)
Theorem parallel_verdict_ignores_completion_order (sched sched' : schedule)
    (self : S3Connector) (files : list string) (st : state W) :
  run_order sched = run_order sched' →
  completion_order sched ≡ₚ completion_order sched' →
  ∃ res res' st1,
    upload_files sched self (Many files) true st = (Returns res, st1)
    ∧ upload_files sched' self (Many files) true st = (Returns res', st1)
    ∧ success res = success res'
    ∧ message res = message res'
    ∧ match error res, error res' with
      | ErrNone, ErrNone => True
      | ErrFiles l, ErrFiles l' => l ≡ₚ l'
      | _, _ => False
      end.
Proof.
  intros Hrun Hdone. rewrite !upload_parallel_unfold, <- Hrun.
  set (futures := (run_pool self files (run_order sched) ∅ st).1).
  set (entry := fun i => file ← files !! i; fut ← futures !! i;
                         item_error file fut).
  assert (Hperm : omap entry (completion_order sched)
                  ≡ₚ omap entry (completion_order sched'))
    by (by rewrite Hdone).
  eexists _, _, _. split; [reflexivity|]. split; [reflexivity|].
  destruct (omap entry (completion_order sched)) as [|e l];
    destruct (omap entry (completion_order sched')) as [|e' l']; simpl.
  - done.
  - by apply Permutation_nil_cons in Hperm.
  - symmetry in Hperm. by apply Permutation_nil_cons in Hperm.
  - done.
Qed.

(** X9. For a connector whose directory is a string, whatever
    [upload_files] raises is an [UploadError] and whatever [list_files]
    and [delete_files] raise is an [S3Error] that is no [UploadError]; so
    [except S3Error], and [except AWSConnectorError], catch every
    exception the three operations raise. *)
Theorem operations_raise_connector_errors (sched : schedule)
    (self : S3Connector) (st : state W) :
  is_Some (s3_directory (config self)) →
  (∀ local_path parallel e,
     (upload_files sched self local_path parallel st).1 = Raises e →
     Exceptions.isinstance e Exceptions.C_UploadError = true
     ∧ Exceptions.isinstance e Exceptions.C_S3Error = true
     ∧ Exceptions.isinstance e Exceptions.C_AWSConnectorError = true)
  ∧ (∀ filter e,
       (list_files self filter st).1 = Raises e →
       Exceptions.isinstance e Exceptions.C_UploadError = false
       ∧ Exceptions.isinstance e Exceptions.C_S3Error = true
       ∧ Exceptions.isinstance e Exceptions.C_AWSConnectorError = true)
  ∧ (∀ keys e,
       (delete_files self keys st).1 = Raises e →
       Exceptions.isinstance e Exceptions.C_UploadError = false
       ∧ Exceptions.isinstance e Exceptions.C_S3Error = true
       ∧ Exceptions.isinstance e Exceptions.C_AWSConnectorError = true).
Proof.
  intros Hdir. split; [|split].
  - assert (Hpath : ∀ p st0 e, (upload_files_path self p st0).1 = Raises e →
              ∃ msg, e = UploadError msg).
    { intros p st0 e He.
      destruct (upload_files_path_outcome self p st0 Hdir)
        as [(msg & Hm)|(res & Hm & _)]; rewrite Hm in He; [|done].
      injection He as <-. eauto. }
    intros [p|files] parallel e He.
    + destruct (Hpath p st e He) as [msg ->]. done.
    + destruct parallel.
      * by rewrite upload_parallel_unfold in He.
      * destruct (upload_each_run self files st) as (evs & _ & Hcase).
        revert He. simpl. step_l.
        destruct (upload_each self files st) as [[[]|e0] st1] eqn:E; [done|].
        simpl in *. intros [= ->].
        destruct Hcase as [[? _]|(before & file & rest & e1 & st2 & _ & _ & Hp & He1 & _)];
          [done|].
        injection He1 as <-.
        destruct (Hpath file st2 e) as [msg ->]; [by rewrite Hp|]. done.
  - intros filter e. destruct Hdir as [d Hd]. unfold list_files. rewrite Hd.
    step_l. destruct (s3_paginate _ _ _) as [w1 [pages|e0]]; simpl; [done|].
    destruct e0; simpl; by intros [= <-].
  - intros keys e. unfold delete_files.
    destruct (match keys with One k => [k] | Many l => l end) as [|k ks];
      [done|].
    step_l. destruct (s3_delete_objects _ _ _) as [w1 [response|e0]]; simpl.
    + by destruct (default [] (Errors response)).
    + destruct e0; simpl; by intros [= <-].
Qed.

End UploadListFacts.

(** ** Building a connector *)
Section InitFacts.
Import PyStr Config Connector Spec Exceptions.
Context {W : Type} `{World W}.


Lemma validate_error (c : S3Config) (e : exn) :
  validate c = inl e → ∃ msg, e = ValueError msg.
Proof.
  unfold validate.
  repeat match goal with
         | |- context [if ?b then _ else _] => destruct b
         | |- context [match aws_region c with _ => _ end] =>
             destruct (aws_region c)
         end; intros [= <-]; eauto.
Qed.

Lemma resolve_config_error (cfg : option S3Config) (kwargs : KwArgs)
    (env : gmap string string) (e : exn) :
  resolve_config cfg kwargs env = inl e → ∃ msg, e = ValueError msg.
Proof.
  unfold resolve_config, from_env, env_int. destruct cfg as [c|]; [done|].
  destruct (int_of_str (default "3" (env !! "AWS_MAX_RETRIES")));
    [|intros [= <-]; eauto].
  destruct (int_of_str (default "30" (env !! "AWS_TIMEOUT")));
    [done|intros [= <-]; eauto].
Qed.

(** X10. A configuration that cannot be resolved or that [validate]
    refuses stops [__init__] before any call is made: it raises
    [ValueError] and the world and the trace are as they were.  The error
    is no [AWSConnectorError]. *)
Theorem init_rejects_before_any_call (cfg : option S3Config) (kwargs : KwArgs)
    (env : gmap string string) (st : state W) :
  (∀ c, resolve_config cfg kwargs env = inr c → validate c ≠ inr tt) →
  ∃ msg,
    init cfg kwargs env st = (Raises (ValueError msg), st)
    ∧ isinstance (ValueError msg) C_AWSConnectorError = false.
Proof.
  intros Hbad. unfold init.
  destruct (resolve_config cfg kwargs env) as [e|c] eqn:Hres.
  - destruct (resolve_config_error _ _ _ _ Hres) as [msg ->]. by exists msg.
  - destruct (validate c) as [e|[]] eqn:Hv.
    + destruct (validate_error _ _ Hv) as [msg ->]. by exists msg.
    + by destruct (Hbad c eq_refl).
Qed.



End InitFacts.

(** ** The environment and the arguments of the client *)
Section FactoryFacts.
Import PyStr Config Connector.


(** X14. [_create_s3_client] passes the key pair to the client whole or
    not at all: both keys when both are set to non-empty strings, neither
    otherwise; the session token only together with the key pair; the
    profile whenever it is a non-empty string, with or without keys.  The
    two timeouts of the client are the timeout of the configuration and
    its retries are [max_retries]. *)
Theorem create_s3_client_credentials (self : S3Connector) :
  let a := _create_s3_client self in
  let c := config self in
  let with_keys :=
    truthy_opt (aws_access_key_id c) && truthy_opt (aws_secret_access_key c) in
  (with_keys = true →
     client_aws_access_key_id a = aws_access_key_id c
     ∧ client_aws_secret_access_key a = aws_secret_access_key c
     ∧ is_Some (client_aws_access_key_id a)
     ∧ is_Some (client_aws_secret_access_key a))
  ∧ (with_keys = false →
       client_aws_access_key_id a = None
       ∧ client_aws_secret_access_key a = None
       ∧ client_aws_session_token a = None)
  ∧ (∀ t, client_aws_session_token a = Some t ↔
          with_keys = true ∧ aws_session_token c = Some t ∧ t ≠ "")
  ∧ (∀ p, session_profile_name a = Some p ↔ aws_profile c = Some p ∧ p ≠ "")
  ∧ connect_timeout a = timeout c
  ∧ read_timeout a = timeout c
  ∧ retries_max_attempts a = max_retries c
  ∧ region_name a = aws_region c.
Proof.
  intros a c with_keys. subst a. unfold _create_s3_client. fold c.
  fold with_keys. simpl.
  assert (Hopt : ∀ (o : option string) (x : string),
            (if truthy_opt o then o else None) = Some x ↔ o = Some x ∧ x ≠ "").
  { intros o x. destruct (truthy_opt o) eqn:Ho.
    - apply truthy_opt_true in Ho as (s & -> & Hs).
      split; [by intros [= <-]|by intros [? _]].
    - split; [done|]. intros [-> Hx].
      simpl in Ho. apply truthy_false in Ho. done. }
  split; [|split; [|split; [|split]]].
  - intros Hk. rewrite Hk. repeat split.
    + apply andb_true_iff in Hk as [Hk _].
      apply truthy_opt_true in Hk as (s & Hs & _). subst c. rewrite Hs. eauto.
    + apply andb_true_iff in Hk as [_ Hk].
      apply truthy_opt_true in Hk as (s & Hs & _). subst c. rewrite Hs. eauto.
  - intros Hk. by rewrite Hk.
  - intros t. destruct with_keys; simpl.
    + rewrite Hopt. tauto.
    + split; [done|by intros [? _]].
  - apply Hopt.
  - done.
Qed.

End FactoryFacts.

(** ** Keys and prefixes on a POSIX host *)
Section PosixKeyFacts.
Import PyStr OsPath Connector.

Lemma after_last_sep_app (is_sep : ascii → bool) (acc a b : string) :
  after_last_sep is_sep acc (a +:+ b)
  = after_last_sep is_sep (after_last_sep is_sep acc a) b.
Proof.
  revert acc. induction a as [|c a IH]; intros acc; [done|].
  rewrite app_cons. simpl. by destruct (is_sep c).
Qed.

Lemma after_last_sep_clean (is_sep : ascii → bool) (acc s : string) :
  all_chars (fun c => negb (is_sep c)) s = true →
  after_last_sep is_sep acc s = acc +:+ s.
Proof.
  revert acc. induction s as [|c s IH]; intros acc Hs; simpl in *.
  - by rewrite app_empty_r.
  - apply andb_true_iff in Hs as [Hc Hs].
    destruct (is_sep c); [done|]. rewrite IH by done.
    by rewrite str_app_assoc.
Qed.

Lemma posix_basename_of_path (parent name : string) :
  all_chars (fun c => negb (Ascii.eqb c "/")) name = true →
  Posix.basename (parent +:+ "/" +:+ name) = name.
Proof.
  intros Hname. unfold Posix.basename.
  rewrite after_last_sep_app.
  change ("/" +:+ name) with (String "/" name).
  change (after_last_sep (fun c => Ascii.eqb c "/") ?acc (String "/" name))
    with (after_last_sep (fun c => Ascii.eqb c "/") "" name).
  by rewrite after_last_sep_clean.
Qed.

(** X15. On a POSIX host the key of an upload is made from the name of the
    file alone: a local path in any directory gets the key that the bare
    file name gets, so files of one name in different directories are
    written to one key. *)
Theorem posix_key_from_file_name (directory parent name : string) :
  all_chars (fun c => negb (Ascii.eqb c "/")) name = true →
  s3_key PosixPath directory (parent +:+ "/" +:+ name)
  = s3_key PosixPath directory name
  ∧ Posix.basename (parent +:+ "/" +:+ name) = name.
Proof.
  intros Hname. unfold s3_key. simpl.
  rewrite posix_basename_of_path by done.
  pose proof (posix_basename_of_path "" name Hname) as Hbare.
  unfold Posix.basename in *.
  rewrite after_last_sep_clean by done.
  by rewrite app_nil.
Qed.

Lemma replace_char_app (old new : ascii) (a b : string) :
  replace_char old new (a +:+ b)
  = replace_char old new a +:+ replace_char old new b.
Proof.
  induction a as [|c a IH]; [done|]. rewrite app_cons. simpl.
  by rewrite IH.
Qed.

Lemma replace_char_id (old new : ascii) (s : string) :
  all_chars (fun c => negb (Ascii.eqb c old)) s = true →
  replace_char old new s = s.
Proof.
  induction s as [|c s IH]; simpl; [done|].
  intros [Hc Hs]%andb_true_iff. rewrite IH by done.
  by destruct (Ascii.eqb c old).
Qed.

Lemma posix_key_formula (directory local_path : string) :
  ∃ rest, s3_key PosixPath directory local_path
          = replace_char bslash "/" directory +:+ rest.
Proof.
  unfold s3_key. simpl. unfold Posix.join.
  rewrite posix_basename_no_slash.
  destruct (negb (truthy directory)
            || bool_decide (last_char directory = Some "/"%char));
    rewrite !replace_char_app; eauto.
Qed.

(** X16. On a POSIX host, for a directory that does not begin with a slash
    and holds no backslash, every key [upload_files] writes begins with
    the prefix [list_files] asks for. *)
Theorem posix_key_under_listing_prefix (directory local_path : string) :
  String.prefix "/" directory = false →
  all_chars (fun c => negb (Ascii.eqb c bslash)) directory = true →
  String.prefix (lstrip "/" directory) (s3_key PosixPath directory local_path)
  = true.
Proof.
  intros Hslash Hback.
  destruct (posix_key_formula directory local_path) as [rest ->].
  rewrite replace_char_id by done.
  assert (Hl : lstrip "/" directory = directory).
  { destruct directory as [|c t]; [done|].
    rewrite prefix_char_cons in Hslash. unfold lstrip. simpl.
    by rewrite Hslash. }
  rewrite Hl. apply prefix_app.
Qed.

(** X17. On a POSIX host, for a directory that begins with a slash and is
    not made of slashes only, no key [upload_files] writes begins with the
    prefix [list_files] asks for: the key keeps the leading slash that
    the prefix has lost. *)
Theorem posix_key_misses_listing_prefix (directory local_path rest : string) :
  directory = "/" +:+ rest →
  lstrip "/" directory ≠ "" →
  String.prefix (lstrip "/" directory) (s3_key PosixPath directory local_path)
  = false.
Proof.
  intros -> Hne.
  destruct (posix_key_formula ("/" +:+ rest) local_path) as [tail ->].
  change ("/" +:+ rest) with (String "/" rest) in *.
  destruct (lstrip "/" (String "/" rest)) as [|c t] eqn:E; [done|].
  apply lstrip_with_head in E. rewrite char_in_single in E.
  change (replace_char bslash "/" (String "/" rest) +:+ tail)
    with (String "/" (replace_char bslash "/" rest +:+ tail)).
  change (String.prefix (String c t)
            (String "/" (replace_char bslash "/" rest +:+ tail)))
    with (if ascii_dec c "/"
          then String.prefix t (replace_char bslash "/" rest +:+ tail)
          else false).
  destruct (ascii_dec c "/") as [->|]; [|done].
  by rewrite Ascii.eqb_refl in E.
Qed.

End PosixKeyFacts.

(** ** Instances of the further properties in the mocked worlds *)
Section MoreRuns.
Import PyStr Config Connector Spec Sim.

Lemma list_files_filters_in_order_witness :
  s3_directory (config connector) = Some "test-dir/"
  ∧ (list_files (H:=posix_host) connector (Some ".csv") (start paged)).1
    = Returns ["test-dir/a.csv"; "test-dir/c.csv"].
Proof.
  split; [reflexivity|].
  destruct (list_files_filters_in_order (H:=posix_host) connector "test-dir/"
              (Some ".csv") (start paged) paged (sim_pages paged)
              eq_refl eq_refl) as (keys & Hk & Hsub & _).
  rewrite Hk. f_equal. vm_compute in Hk. by injection Hk as <-.
Defined.

Lemma list_files_translates_errors_witness :
  list_files (H:=down_host (ClientError "AccessDenied")) connector None
    (start mocked)
  = (Raises (S3Error "Failed to list files in S3: AccessDenied"),
     mkState mocked [EvPaginate (Some "test-bucket") "test-dir/"]).
Proof.
  destruct (list_files_translates_errors
              (H:=down_host (ClientError "AccessDenied")) connector
              "test-dir/" None (start mocked) mocked
              (ClientError "AccessDenied") eq_refl eq_refl)
    as (msg & Hrun & -> & _).
  exact Hrun.
Defined.

Lemma delete_files_translates_errors_witness :
  delete_files (H:=down_host (OtherException "timed out")) connector
    (One "test-dir/file1.txt") (start mocked)
  = (Raises (S3Error "Unexpected error during delete_files: timed out"),
     mkState mocked
       [EvDeleteObjects (Some "test-bucket") ["test-dir/file1.txt"]]).
Proof.
  destruct (delete_files_translates_errors
              (H:=down_host (OtherException "timed out")) connector
              (One "test-dir/file1.txt") (start mocked) mocked
              (OtherException "timed out") ltac:(discriminate) eq_refl)
    as (msg & Hrun & -> & _).
  exact Hrun.
Defined.

Lemma upload_path_calls_client_once_witness :
  (upload_files (H:=posix_host) (mkSchedule [] []) connector (One "file.txt")
     false (start mocked)).2
  = mkState mocked
      [EvIsFile "file.txt";
       EvUploadFile "file.txt" (Some "test-bucket") "test-dir/file.txt"].
Proof.
  exact (proj1 (upload_path_calls_client_once (H:=posix_host)
                  (mkSchedule [] []) connector "file.txt" false "test-dir/"
                  (start mocked) mocked mocked (Returns tt)
                  eq_refl eq_refl eq_refl)).
Defined.

Lemma sequential_success_uploads_each_witness :
  ∃ evs,
    trace (upload_files (H:=posix_host) (mkSchedule [] []) connector
             (Many ["file1.txt"; "file2.txt"]) false (start mocked)).2
    = [] ++ evs
    ∧ uploads evs
      = [("file1.txt", Some "test-bucket", "test-dir/file1.txt");
         ("file2.txt", Some "test-bucket", "test-dir/file2.txt")].
Proof.
  destruct (upload_files (H:=posix_host) (mkSchedule [] []) connector
              (Many ["file1.txt"; "file2.txt"]) false (start mocked))
    as [[res|e] st'] eqn:E; [|vm_compute in E; discriminate].
  destruct (sequential_success_uploads_each (H:=posix_host) (mkSchedule [] [])
              connector ["file1.txt"; "file2.txt"] (start mocked) st' res E)
    as (evs & Ht & Hu & _).
  exists evs. split; [exact Ht|]. rewrite Hu. reflexivity.
Defined.

Lemma parallel_success_uploads_each_witness :
  [1; 0] ≡ₚ seq 0 (length ["file1.txt"; "file2.txt"])
  ∧ ∃ evs,
      trace (upload_files (H:=posix_host) (mkSchedule [1; 0] [1; 0]) connector
               (Many ["file1.txt"; "file2.txt"]) true (start mocked)).2
      = [] ++ evs
      ∧ uploads evs
        ≡ₚ [("file1.txt", Some "test-bucket", "test-dir/file1.txt");
            ("file2.txt", Some "test-bucket", "test-dir/file2.txt")].
Proof.
  assert (Hperm : [1; 0] ≡ₚ seq 0 (length ["file1.txt"; "file2.txt"]))
    by (simpl; apply perm_swap).
  split; [exact Hperm|].
  destruct (upload_files (H:=posix_host) (mkSchedule [1; 0] [1; 0]) connector
              (Many ["file1.txt"; "file2.txt"]) true (start mocked))
    as [[res|e] st'] eqn:E; [|vm_compute in E; discriminate].
  assert (Hs : success res = true)
    by (vm_compute in E; by injection E as <- _).
  destruct (parallel_success_uploads_each (H:=posix_host)
              (mkSchedule [1; 0] [1; 0]) connector ["file1.txt"; "file2.txt"]
              (start mocked) st' res Hperm Hperm E Hs)
    as (evs & Ht & Hu & _).
  exists evs. split; [exact Ht|]. rewrite Hu. reflexivity.
Defined.

Lemma modes_agree_on_success_witness :
  upload_files (H:=posix_host) (mkSchedule [0; 1] [1; 0]) connector
    (Many ["file1.txt"; "file2.txt"]) true (start mocked)
  = (Returns {| success := true;
                message := "Uploaded 2 files in parallel.";
                error := ErrNone |},
     (upload_files (H:=posix_host) (mkSchedule [0; 1] [1; 0]) connector
        (Many ["file1.txt"; "file2.txt"]) false (start mocked)).2).
Proof.
  destruct (upload_files (H:=posix_host) (mkSchedule [0; 1] [1; 0]) connector
              (Many ["file1.txt"; "file2.txt"]) false (start mocked))
    as [[res|e] st'] eqn:E; [|vm_compute in E; discriminate].
  exact (modes_agree_on_success (H:=posix_host) (mkSchedule [0; 1] [1; 0])
           connector ["file1.txt"; "file2.txt"] (start mocked) st' res
           eq_refl E).
Defined.

Lemma parallel_verdict_ignores_completion_order_witness :
  ∃ res res' st1,
    upload_files (H:=posix_host) (mkSchedule [1; 0] [1; 0]) connector
      (Many ["a/f1.txt"; "a/f2.txt"]) true (start two_files)
    = (Returns res, st1)
    ∧ upload_files (H:=posix_host) (mkSchedule [1; 0] [0; 1]) connector
        (Many ["a/f1.txt"; "a/f2.txt"]) true (start two_files)
      = (Returns res', st1)
    ∧ success res = success res'.
Proof.
  destruct (parallel_verdict_ignores_completion_order (H:=posix_host)
              (mkSchedule [1; 0] [1; 0]) (mkSchedule [1; 0] [0; 1]) connector
              ["a/f1.txt"; "a/f2.txt"] (start two_files) eq_refl
              (perm_swap 0 1 []))
    as (res & res' & st1 & H1 & H2 & Hs & _).
  by exists res, res', st1.
Defined.

Lemma operations_raise_connector_errors_witness :
  Exceptions.isinstance (UploadError "File not found: absent.txt")
    Exceptions.C_S3Error = true.
Proof.
  assert (Hd : is_Some (s3_directory (config connector)))
    by (exists "test-dir/"; reflexivity).
  destruct (operations_raise_connector_errors (H:=posix_host)
              (mkSchedule [] []) connector (start mocked) Hd) as [Hup _].
  exact (proj1 (proj2 (Hup (One "absent.txt") false
                         (UploadError "File not found: absent.txt") eq_refl))).
Defined.

Lemma init_rejects_before_any_call_witness :
  ∃ msg,
    init (H:=posix_host) None no_kwargs ∅ (start mocked)
    = (Raises (ValueError msg), start mocked).
Proof.
  destruct (init_rejects_before_any_call (H:=posix_host) None no_kwargs ∅
              (start mocked)) as (msg & Hrun & _).
  - intros c Hc. vm_compute in Hc. injection Hc as <-. discriminate.
  - by exists msg.
Defined.



Lemma posix_key_from_file_name_witness :
  s3_key OsPath.PosixPath "test-dir/" ("a/b" +:+ "/" +:+ "report.csv")
  = s3_key OsPath.PosixPath "test-dir/" "report.csv".
Proof.
  exact (proj1 (posix_key_from_file_name "test-dir/" "a/b" "report.csv"
                  eq_refl)).
Defined.

Lemma posix_key_under_listing_prefix_witness :
  String.prefix (lstrip "/" "data/")
    (s3_key OsPath.PosixPath "data/" "a/report.csv") = true.
Proof.
  exact (posix_key_under_listing_prefix "data/" "a/report.csv"
           eq_refl eq_refl).
Defined.

Lemma posix_key_misses_listing_prefix_witness :
  s3_key OsPath.PosixPath "/data/" "a/report.csv" = "/data/report.csv"
  ∧ lstrip "/" "/data/" = "data/"
  ∧ String.prefix (lstrip "/" "/data/")
      (s3_key OsPath.PosixPath "/data/" "a/report.csv") = false.
Proof.
  split; [reflexivity|]. split; [reflexivity|].
  exact (posix_key_misses_listing_prefix "/data/" "a/report.csv" "data/"
           eq_refl ltac:(discriminate)).
Defined.

End MoreRuns.

(** ** Edge cases of the batch operations *)
Section EdgeFacts.
Import PyStr Config Connector Spec.
Context {W : Type} `{World W}.

Ltac step_e :=
  unfold mbind, M_bind, mret, M_ret, call, call_client, raise, try_except;
  simpl.


Lemma run_pool_no_files (self : S3Connector) (order : list nat)
    (futures : gmap nat (outcome result)) (st : state W) :
  run_pool self [] order futures st = (futures, st).
Proof. induction order as [|i order IH]; simpl; [done|]. exact IH. Qed.

(** X19. An empty list of files is uploaded with success in both modes
    and without any call, where an empty list of keys makes
    [delete_files] report a failure. *)
Theorem upload_empty_list_succeeds (sched : schedule) (self : S3Connector)
    (st : state W) :
  upload_files sched self (Many []) false st
  = (Returns {| success := true; message := "Uploaded 0 files.";
                error := ErrNone |}, st)
  ∧ upload_files sched self (Many []) true st
    = (Returns {| success := true;
                  message := "Uploaded 0 files in parallel.";
                  error := ErrNone |}, st)
  ∧ (delete_files self (Many []) st).1
    = Returns {| success := false;
                 message := "No keys provided for deletion.";
                 error := ErrNone |}.
Proof.
  split; [reflexivity|]. split; [|reflexivity].
  rewrite upload_parallel_unfold, run_pool_no_files.
  assert (Hnil : omap (fun i => file ← ([] : list string) !! i;
                               fut ← (∅ : gmap nat (outcome result)) !! i;
                               item_error file fut)
                      (completion_order sched) = []).
  { apply omap_nil_all. intros i _. by rewrite lookup_nil. }
  simpl in *. by rewrite Hnil.
Qed.

(** X20. The empty string as filter keeps every key: [list_files("")]
    returns what [list_files()] returns. *)
Theorem list_files_empty_filter (self : S3Connector) (st : state W) :
  list_files self (Some "") st = list_files self None st.
Proof.
  unfold list_files. destruct (s3_directory (config self)) as [d|]; [|done].
  step_e. destruct (s3_paginate _ _ _) as [w1 [pages|e]]; [|done].
  simpl. do 3 f_equal. apply map_ext. intros page.
  apply filter_ext_in. intros key _.
  unfold PyStr.contains. by destruct key.
Qed.

End EdgeFacts.
